(** * Training loop of the pointer-generator summarizer

    A shallow embedding of [training_ptr_gen/train.py] (class [Train]):
    [save_model], [setup_train], [train_one_batch] and [trainIters].

    Conventions of the embedding.
    - Floating-point tensors are lists of real numbers ([R]); rounding,
      infinities and NaN are not modelled.  A tensor of shape [B] is a
      [vec], a tensor of shape [B, K] is a [mat] (a list of [B] rows).
    - Integer tensors (token ids) are lists of [nat].
    - A Python operation that can raise returns [option] (tensor
      primitives) or [result] (methods of [Train]).
    - A shape mismatch between the operands of an element-wise operation
      is an error; broadcasting of size-one dimensions is not modelled.
    - The network modules, autograd, the optimizer update, the batcher,
      the input/output adapter and the beam-search evaluator live in other
      files; they are parameters of the development. *)

From Stdlib Require Import String Ascii DecimalString.
From Stdlib Require DecimalNat.
From Stdlib Require Import Reals Lra Lia List Arith Bool.
Import ListNotations.
Open Scope R_scope.

Set Implicit Arguments.

(* ================================================================= *)
(** ** Option monad for fallible tensor primitives *)

Definition obind {A B : Type} (m : option A) (k : A -> option B) : option B :=
  match m with
  | Some a => k a
  | None => None
  end.

Notation "x <- m ;; k" := (obind m (fun x => k))
  (at level 61, m at next level, right associativity).

(* ================================================================= *)
(** ** Tensor primitives (the fragment of torch used by train.py) *)

Module Torch.

Definition vec := list R.
Definition mat := list (list R).

(** [t[:, di]]: column [di] of a 2-D tensor; IndexError when a row is
    too short. *)
Fixpoint column {A : Type} (t : list (list A)) (di : nat) : option (list A) :=
  match t with
  | [] => Some []
  | row :: rest =>
      x <- nth_error row di ;;
      c <- column rest di ;;
      Some (x :: c)
  end.

(** [torch.gather(input, 1, index.unsqueeze(1)).squeeze()]: entry
    [index[b]] of row [b], for every [b] of [index].  The index may
    not have more rows than the input, and every id must be in range. *)
Fixpoint gather1 (input : mat) (index : list nat) {struct index}
  : option vec :=
  match index with
  | [] => Some []
  | i :: index' =>
      match input with
      | [] => None
      | row :: input' =>
          x <- nth_error row i ;;
          g <- gather1 input' index' ;;
          Some (x :: g)
      end
  end.

(** Element-wise binary operation on two tensors of the same length. *)
Fixpoint zip_exact {A B C : Type} (f : A -> B -> C) (a : list A) (b : list B)
  : option (list C) :=
  match a, b with
  | [], [] => Some []
  | x :: a', y :: b' =>
      r <- zip_exact f a' b' ;;
      Some (f x y :: r)
  | _, _ => None
  end.

Definition add (a b : vec) : option vec := zip_exact Rplus a b.
Definition mul (a b : vec) : option vec := zip_exact Rmult a b.
Definition div (a b : vec) : option vec := zip_exact Rdiv a b.

(** [c * t] for a Python float [c]. *)
Definition scale (c : R) (t : vec) : vec := map (Rmult c) t.

(** [-torch.log(t + e)].  For [p + e <= 0] torch gives an infinite or
    undefined value; the reals have neither and [ln] is 0 there, so a
    statement about the value of an entry is meant for [0 < p + e]. *)
Definition neg_log_plus (e : R) (t : vec) : vec :=
  map (fun p => - ln (p + e)) t.

(** Sum of all entries of a 1-D tensor. *)
Definition sum (t : vec) : R := fold_right Rplus 0 t.

(** [torch.sum(t, 1)]. *)
Definition sum1 (t : mat) : vec := map sum t.

(** [torch.min(a, b)] on 2-D tensors of equal shape. *)
Fixpoint min2 (a b : mat) : option mat :=
  match a, b with
  | [], [] => Some []
  | ra :: a', rb :: b' =>
      r <- zip_exact Rmin ra rb ;;
      t <- min2 a' b' ;;
      Some (r :: t)
  | _, _ => None
  end.

(** [torch.stack(ts, 1)] on 1-D tensors: row [b] of the result lists
    entry [b] of every tensor.  The list must be non-empty and all
    tensors must have the same length. *)
Definition stack1 (ts : list vec) : option mat :=
  match ts with
  | [] => None
  | t0 :: _ =>
      if forallb (fun t => Nat.eqb (length t) (length t0)) ts
      then Some (map (fun b => map (fun t => nth b t 0) ts)
                     (seq 0 (length t0)))
      else None
  end.

(** [torch.mean(t)]; of a non-empty tensor (torch gives NaN on an empty
    one, the quotient by [INR 0] here). *)
Definition mean (t : vec) : R := sum t / INR (length t).

(** 2-norm of the gradients of a parameter group. *)
Definition norm2 (g : vec) : R := sqrt (sum (map (fun x => x * x) g)).

(** [torch.nn.utils.clip_grad_norm_(parameters, max_norm)] with the
    default [norm_type = 2]:
<<
    total_norm = (sum of squares of all gradients) ** 0.5
    clip_coef = max_norm / (total_norm + 1e-6)
    if clip_coef < 1: every gradient is multiplied by clip_coef
    return total_norm
>>
    The result is the returned norm and the gradients left in place.
    The arithmetic is exact here; in floating point the [1e-6] is
    absorbed by a large [total_norm], so only statements that survive
    rounding are made about the comparison [clip_coef < 1]. *)
Definition clip_eps : R := / 1000000.

Definition clip_grad_norm_ (g : vec) (max_norm : R) : R * vec :=
  let total_norm := norm2 g in
  let clip_coef := max_norm / (total_norm + clip_eps) in
  if Rlt_dec clip_coef 1 then (total_norm, scale clip_coef g)
  else (total_norm, g).

End Torch.

(* ================================================================= *)
(** ** Data model *)

Import Torch.

(** The options of [data_util.config] read by train.py. *)
Record Config := {
  lr : R;
  lr_coverage : R;
  is_coverage : bool;
  adagrad_init_acc : R;
  eps : R;
  cov_loss_wt : R;
  max_dec_steps : nat;
  max_grad_norm : R;
  use_gpu : bool
}.

(** A network module: its parameters (flattened) and their [.grad]. *)
Record NNModule := {
  state_dict : vec;
  grad : vec
}.

(** [self.model]: the three parameter groups. *)
Record Model := {
  encoder : NNModule;
  decoder : NNModule;
  reduce_state : NNModule
}.

(** Modelled from the spec: the state of [AdagradCustom]
    (custom_adagrad.py): "per-parameter accumulator (sum of squared
    gradients) plus learning rate". *)
Record Optimizer := {
  opt_lr : R;
  accumulator : vec
}.

(** Modelled from the spec: the constructor of [AdagradCustom]
    (custom_adagrad.py): "maintains an accumulator per parameter,
    initialized to a configurable constant". *)
Definition AdagradCustom (params : vec) (lr0 : R)
    (initial_accumulator_value : R) : Optimizer :=
  {| opt_lr := lr0;
     accumulator := map (fun _ => initial_accumulator_value) params |}.

(** The dictionary written by [save_model]. *)
Record Checkpoint := {
  ck_iter : nat;
  encoder_state_dict : vec;
  decoder_state_dict : vec;
  reduce_state_dict : vec;
  ck_optimizer : Optimizer;
  current_loss : R
}.

(** The files written by [torch.save], most recent first. *)
Definition FS := list (string * Checkpoint).

Definition torch_save (state : Checkpoint) (path : string) (fs : FS) : FS :=
  (path, state) :: fs.

Fixpoint torch_load (fs : FS) (path : string) : option Checkpoint :=
  match fs with
  | [] => None
  | (p, state) :: fs' =>
      if String.eqb p path then Some state else torch_load fs' path
  end.

(** The tuple returned by [get_input_from_batch]. *)
Record EncoderInput := {
  enc_batch : list (list nat);
  enc_padding_mask : mat;
  enc_lens : list nat;
  enc_batch_extend_vocab : option (list (list nat));
  extra_zeros : option mat;
  in_c_t_1 : mat;
  in_coverage : option mat
}.

(** The tuple returned by [get_output_from_batch]. *)
Record DecoderTarget := {
  dec_batch : list (list nat);
  dec_padding_mask : mat;
  max_dec_len : nat;
  dec_lens_var : vec;
  target_batch : list (list nat)
}.

(** Exceptions that end a method of [Train]. *)
Inductive exn :=
| TensorError       (* IndexError / RuntimeError / TypeError of a tensor op *)
| LoadError         (* torch.load on a missing file *)
| ModelError        (* raised by the constructor of Model *)
| EvaluationError   (* raised by BeamSearch(...) or its decode() *)
| OutOfFuel.        (* artefact of the fuel of [train_loop]; never returned
                       by [trainIters], see [train_loop_enough_fuel] *)

Inductive result (A : Type) :=
| Ok (a : A)
| Raise (e : exn).
Arguments Ok {A} a.
Arguments Raise {A} e.

(** What [self] holds while [trainIters] runs.  The fields [model] and
    [optimizer] are assigned by [setup_train]; [batches_drawn] counts the
    calls of [self.batcher.next_batch()]. *)
Record Train := {
  model_dir : string;
  model : Model;
  optimizer : Optimizer;
  norm : R;
  batches_drawn : nat
}.

(** Observable actions of [trainIters], in program order: the log
    lines, the calls of the collaborators and the return of
    [train_one_batch] ([TrainedBatch]). *)
Inductive event :=
| LogStartingTraining (iter : nat)
| LogStartingIteration (n : nat)
| NextBatch (k : nat)
| TrainedBatch (loss : R)
| SummaryFlush
| LogSteps (iter : nat) (loss : R)
| LogSavingModel (n : nat)
| TorchSave (path : string) (state : Checkpoint)
| BeamSearchDecode (path : string)
| LogIterationEnded (n : nat)
| LogTimeTaken (n : nat).

(** The world outside [self]: the files and what has been observed. *)
Record World := {
  fs : FS;
  trace : list event
}.

Definition emit (e : event) (w : World) : World :=
  {| fs := fs w; trace := trace w ++ [e] |}.

(** ['%d' % n] for a non-negative integer. *)
Definition fmt_d (n : nat) : string := NilZero.string_of_uint (Nat.to_uint n).

Definition ends_with_slash (s : string) : bool :=
  match get (String.length s - 1) s with
  | Some c => Ascii.eqb c "/"
  | None => false
  end.

(** [os.path.join(a, b)] for a relative [b]. *)
Definition os_path_join (a b : string) : string :=
  if orb (String.eqb a "") (ends_with_slash a) then a ++ b
  else a ++ "/" ++ b.

(* ================================================================= *)
(** ** The class [Train] *)

Section TrainClass.

(** Types of tensors that train.py only passes along. *)
Variables EncOutputs EncFeature EncHidden DecState Batch : Type.

(** What one call of [self.model.decoder] returns. *)
Record DecoderOut := {
  final_dist : mat;
  s_t : DecState;
  c_t : mat;
  attn_dist : mat;
  p_gen : mat;
  next_coverage : option mat
}.

Variable config : Config.
Variable cuda_is_available : bool.

(** Collaborators defined outside train.py. *)
Variable encoder_forward :
  vec -> list (list nat) -> list nat -> EncOutputs * EncFeature * EncHidden.
Variable reduce_state_forward : vec -> EncHidden -> DecState.
Variable decoder_forward :
  vec -> list nat -> DecState -> EncOutputs -> EncFeature -> mat -> mat ->
  option mat -> option (list (list nat)) -> option mat -> nat -> DecoderOut.
Variable get_input_from_batch : Batch -> bool -> EncoderInput.
Variable get_output_from_batch : Batch -> bool -> DecoderTarget.
(** [loss.backward()]: fills the [.grad] of the three groups. *)
Variable loss_backward : Model -> Batch -> Model.
(** [self.optimizer.step()]. *)
Variable optimizer_step : Optimizer -> Model -> Optimizer * Model.
(** [Model(model_file_path)]. *)
Variable Model_new : FS -> option string -> result Model.
(** The batches that [self.batcher] yields, in order. *)
Variable batcher : nat -> Batch.
Variable calc_running_avg_loss : R -> R -> nat -> R.
(** [BeamSearch(model_path).decode()]. *)
Variable beam_search_decode : FS -> string -> result FS.
(** [int(time.time())] when the checkpoint of iteration [iter] is written. *)
Variable time_at : nat -> nat.

Definition USE_CUDA : bool := use_gpu config && cuda_is_available.

(** [v.cuda()]: a change of device, not of value. *)
Definition cuda (o : Optimizer) : Optimizer := o.

(** *** save_model *)

Definition checkpoint_of (self : Train) (running_avg_loss : R) (iter : nat)
  : Checkpoint :=
  {| ck_iter := iter;
     encoder_state_dict := state_dict (encoder (model self));
     decoder_state_dict := state_dict (decoder (model self));
     reduce_state_dict := state_dict (reduce_state (model self));
     ck_optimizer := optimizer self;
     current_loss := running_avg_loss |}.

Definition save_model (self : Train) (files : FS) (running_avg_loss : R)
    (iter : nat) : string * FS :=
  let state := checkpoint_of self running_avg_loss iter in
  let model_save_path :=
    os_path_join (model_dir self)
      ("model_" ++ fmt_d iter ++ "_" ++ fmt_d (time_at iter))%string in
  (model_save_path, torch_save state model_save_path files).

(** *** setup_train *)

Definition setup_train (self : Train) (files : FS)
    (model_file_path : option string) : result (Train * nat * R) :=
  match Model_new files model_file_path with
  | Raise e => Raise e
  | Ok m =>
      let params := state_dict (encoder m) ++ state_dict (decoder m)
                    ++ state_dict (reduce_state m) in
      let initial_lr :=
        if is_coverage config then lr_coverage config else lr config in
      let opt := AdagradCustom params initial_lr (adagrad_init_acc config) in
      let with_opt (o : Optimizer) : Train :=
        {| model_dir := model_dir self; model := m; optimizer := o;
           norm := norm self; batches_drawn := batches_drawn self |} in
      match model_file_path with
      | None => Ok (with_opt opt, 0%nat, 0)
      | Some path =>
          match torch_load files path with
          | None => Raise LoadError
          | Some state =>
              let start_iter := ck_iter state in
              let start_loss := current_loss state in
              if negb (is_coverage config) then
                let loaded := ck_optimizer state in
                Ok (with_opt (if USE_CUDA then cuda loaded else loaded),
                    start_iter, start_loss)
              else Ok (with_opt opt, start_iter, start_loss)
          end
      end
  end.

(** *** train_one_batch *)

(** The variables the decoding loop carries from step to step.
    [fed] is a ghost record of the first argument of every decoder
    call, in call order. *)
Record DecodeState := {
  s_t_1 : DecState;
  c_t_1 : mat;
  coverage : option mat;
  step_losses : list vec;
  fed : list (list nat)
}.

(** [for di in range(n): st = body(st, di)], stopping at the first
    error. *)
Fixpoint for_range {S : Type} (body : S -> nat -> option S)
    (range : list nat) (st : S) : option S :=
  match range with
  | [] => Some st
  | di :: range' => st' <- body st di ;; for_range body range' st'
  end.

(** [torch.sum(torch.min(attn_dist, coverage), 1)]. *)
Definition step_coverage_loss (attn : mat) (cov : option mat) : option vec :=
  c <- cov ;;
  m <- min2 attn c ;;
  Some (sum1 m).

(** One call of the decoder, as the loop body makes it. *)
Definition call_decoder (m : Model) (inp : EncoderInput)
    (encoder_outputs : EncOutputs) (encoder_feature : EncFeature)
    (st : DecodeState) (y_t_1 : list nat) (di : nat) : DecoderOut :=
  decoder_forward (state_dict (decoder m)) y_t_1 (s_t_1 st) encoder_outputs
    encoder_feature (enc_padding_mask inp) (c_t_1 st) (extra_zeros inp)
    (enc_batch_extend_vocab inp) (coverage st) di.

(** The body of the [for di] loop. *)
Definition decode_step (m : Model) (inp : EncoderInput) (out : DecoderTarget)
    (encoder_outputs : EncOutputs) (encoder_feature : EncFeature)
    (st : DecodeState) (di : nat) : option DecodeState :=
  y_t_1 <- column (dec_batch out) di ;;
  let d := call_decoder m inp encoder_outputs encoder_feature st y_t_1 di in
  target <- column (target_batch out) di ;;
  gold_probs <- gather1 (final_dist d) target ;;
  let step_loss := neg_log_plus (eps config) gold_probs in
  lc <- (if is_coverage config then
           scl <- step_coverage_loss (attn_dist d) (coverage st) ;;
           l <- add step_loss (scale (cov_loss_wt config) scl) ;;
           Some (l, next_coverage d)
         else Some (step_loss, coverage st)) ;;
  step_mask <- column (dec_padding_mask out) di ;;
  step_loss' <- mul (fst lc) step_mask ;;
  Some {| s_t_1 := s_t d;
          c_t_1 := c_t d;
          coverage := snd lc;
          step_losses := step_losses st ++ [step_loss'];
          fed := fed st ++ [y_t_1] |}.

(** State of the loop variables on entry. *)
Definition decode_init (m : Model) (inp : EncoderInput)
    (encoder_hidden : EncHidden) : DecodeState :=
  {| s_t_1 := reduce_state_forward (state_dict (reduce_state m)) encoder_hidden;
     c_t_1 := in_c_t_1 inp;
     coverage := in_coverage inp;
     step_losses := [];
     fed := [] |}.

(** The first [n] rounds of the decoding loop of [train_one_batch]. *)
Definition decode_loop (m : Model) (batch : Batch) (n : nat)
  : option DecodeState :=
  let inp := get_input_from_batch batch USE_CUDA in
  let out := get_output_from_batch batch USE_CUDA in
  let '(encoder_outputs, encoder_feature, encoder_hidden) :=
    encoder_forward (state_dict (encoder m)) (enc_batch inp) (enc_lens inp) in
  for_range (decode_step m inp out encoder_outputs encoder_feature)
            (seq 0 n) (decode_init m inp encoder_hidden).

(** Number of rounds: [min(max_dec_len, config.max_dec_steps)]. *)
Definition decode_steps (batch : Batch) : nat :=
  Nat.min (max_dec_len (get_output_from_batch batch USE_CUDA))
          (max_dec_steps config).

(** Lines 127-129: from the step losses to the scalar loss. *)
Definition batch_loss (losses : list vec) (dec_lens : vec) : option R :=
  stacked <- stack1 losses ;;
  let sum_losses := sum1 stacked in
  batch_avg_loss <- div sum_losses dec_lens ;;
  Some (mean batch_avg_loss).

(** The forward pass: everything before [loss.backward()]. *)
Definition forward_loss (m : Model) (batch : Batch) : option R :=
  st <- decode_loop m batch (decode_steps batch) ;;
  batch_loss (step_losses st)
             (dec_lens_var (get_output_from_batch batch USE_CUDA)).

(** [self.optimizer.zero_grad()]. *)
Definition zero_module (n : NNModule) : NNModule :=
  {| state_dict := state_dict n; grad := map (fun _ => 0) (grad n) |}.

Definition zero_grad (m : Model) : Model :=
  {| encoder := zero_module (encoder m);
     decoder := zero_module (decoder m);
     reduce_state := zero_module (reduce_state m) |}.

Definition set_grad (n : NNModule) (g : vec) : NNModule :=
  {| state_dict := state_dict n; grad := g |}.

(** Lines 133-137: the three calls of [clip_grad_norm_]; the norm
    returned by the first one is kept in [self.norm]. *)
Definition clip_gradients (m : Model) : R * Model :=
  let (n, ge) := clip_grad_norm_ (grad (encoder m)) (max_grad_norm config) in
  let m1 := {| encoder := set_grad (encoder m) ge;
               decoder := decoder m;
               reduce_state := reduce_state m |} in
  let (_, gd) := clip_grad_norm_ (grad (decoder m1)) (max_grad_norm config) in
  let m2 := {| encoder := encoder m1;
               decoder := set_grad (decoder m1) gd;
               reduce_state := reduce_state m1 |} in
  let (_, gr) :=
    clip_grad_norm_ (grad (reduce_state m2)) (max_grad_norm config) in
  (n, {| encoder := encoder m2;
         decoder := decoder m2;
         reduce_state := set_grad (reduce_state m2) gr |}).

Definition train_one_batch (self : Train) (batch : Batch)
  : option (R * Train) :=
  let m0 := zero_grad (model self) in
  loss <- forward_loss m0 batch ;;
  let m1 := loss_backward m0 batch in
  let (n, m2) := clip_gradients m1 in
  let (opt', m3) := optimizer_step (optimizer self) m2 in
  Some (loss,
        {| model_dir := model_dir self; model := m3; optimizer := opt';
           norm := n; batches_drawn := batches_drawn self |}).

(** *** trainIters *)

(** The variables of the [while] loop. *)
Record LoopVars := {
  lv_self : Train;
  lv_world : World;
  lv_iter : nat;
  lv_running_avg_loss : R
}.

Definition draw_batch (self : Train) : Train :=
  {| model_dir := model_dir self; model := model self;
     optimizer := optimizer self; norm := norm self;
     batches_drawn := S (batches_drawn self) |}.

(** Lines 166-172: the checkpoint and the optional evaluation, for the
    already incremented [iter]. *)
Definition checkpoint_and_evaluate (evaluate : bool) (self : Train)
    (w : World) (running_avg_loss : R) (iter : nat) : result World :=
  if (iter mod 5000 =? 0)%nat then
    let w1 := emit (LogSavingModel (iter + 1)) w in
    let (model_path, files) := save_model self (fs w1) running_avg_loss iter in
    let w2 := emit (TorchSave model_path
                      (checkpoint_of self running_avg_loss iter))
                   {| fs := files; trace := trace w1 |} in
    if evaluate then
      match beam_search_decode (fs w2) model_path with
      | Raise e => Raise e
      | Ok files' =>
          Ok (emit (BeamSearchDecode model_path)
                   {| fs := files'; trace := trace w2 |})
      end
    else Ok w2
  else Ok w.

(** One round of the [while] loop. *)
Definition train_iteration (evaluate : bool) (v : LoopVars)
  : result LoopVars :=
  let iter := lv_iter v in
  let w0 := emit (LogStartingIteration (iter + 1)) (lv_world v) in
  let batch := batcher (batches_drawn (lv_self v)) in
  let w1 := emit (NextBatch (batches_drawn (lv_self v))) w0 in
  match train_one_batch (draw_batch (lv_self v)) batch with
  | None => Raise TensorError
  | Some (loss, self') =>
      let w1 := emit (TrainedBatch loss) w1 in
      let running_avg_loss :=
        calc_running_avg_loss loss (lv_running_avg_loss v) iter in
      let iter := S iter in
      let w2 := if (iter mod 100 =? 0)%nat then emit SummaryFlush w1 else w1 in
      let w3 := if (iter mod 1000 =? 0)%nat
                then emit (LogSteps iter loss) w2 else w2 in
      match checkpoint_and_evaluate evaluate self' w3 running_avg_loss iter with
      | Raise e => Raise e
      | Ok w4 =>
          let w5 := emit (LogIterationEnded (iter + 1)) w4 in
          let w6 := emit (LogTimeTaken (iter + 1)) w5 in
          Ok {| lv_self := self'; lv_world := w6; lv_iter := iter;
                lv_running_avg_loss := running_avg_loss |}
      end
  end.

(** [while iter < n_iters: ...]; [fuel] bounds the number of rounds. *)
Fixpoint train_loop (fuel : nat) (n_iters : nat) (evaluate : bool)
    (v : LoopVars) : result LoopVars :=
  if (lv_iter v <? n_iters)%nat then
    match fuel with
    | O => Raise OutOfFuel
    | S fuel' =>
        match train_iteration evaluate v with
        | Raise e => Raise e
        | Ok v' => train_loop fuel' n_iters evaluate v'
        end
    end
  else Ok v.

Definition trainIters (self : Train) (w : World) (n_iters : nat)
    (model_file_path : option string) (evaluate : bool) : result LoopVars :=
  match setup_train self (fs w) model_file_path with
  | Raise e => Raise e
  | Ok (self', iter, running_avg_loss) =>
      let w' := emit (LogStartingTraining iter) w in
      train_loop (n_iters - iter) n_iters evaluate
        {| lv_self := self'; lv_world := w'; lv_iter := iter;
           lv_running_avg_loss := running_avg_loss |}
  end.

(* =============================================================== *)
(** ** Vocabulary of the statements *)

(** Entry [(b, j)] of a 2-D tensor, when it exists. *)
Definition entry {A : Type} (t : list (list A)) (b j : nat) : option A :=
  row <- nth_error t b ;; nth_error row j.

(** A tensor of shape [B, K]. *)
Definition has_shape {A : Type} (t : list (list A)) (B K : nat) : Prop :=
  length t = B /\ Forall (fun row => length row = K) t.

(** A tensor with [B] rows, each with at least [K] entries. *)
Definition has_columns {A : Type} (t : list (list A)) (B K : nat) : Prop :=
  length t = B /\ Forall (fun row => (K <= length row)%nat) t.

Definition nonneg (t : mat) : Prop :=
  Forall (Forall (fun x => 0 <= x)) t.

Definition coverage_shape (cov : option mat) (B L : nat) : Prop :=
  is_coverage config = true -> exists c, cov = Some c /\ has_shape c B L.

(** The shape contract between a batch and the network: batch size [B],
    source length [L], extended vocabulary size [V]. *)
Record well_shaped (B L V : nat) (batch : Batch) : Prop := {
  ws_dec_batch :
    has_columns (dec_batch (get_output_from_batch batch USE_CUDA)) B
                (decode_steps batch);
  ws_target :
    has_columns (target_batch (get_output_from_batch batch USE_CUDA)) B
                (decode_steps batch);
  ws_gold :
    Forall (Forall (fun id => (id < V)%nat))
           (target_batch (get_output_from_batch batch USE_CUDA));
  ws_mask :
    has_columns (dec_padding_mask (get_output_from_batch batch USE_CUDA)) B
                (decode_steps batch);
  ws_lens :
    length (dec_lens_var (get_output_from_batch batch USE_CUDA)) = B;
  ws_coverage :
    coverage_shape (in_coverage (get_input_from_batch batch USE_CUDA)) B L;
  ws_final : forall w y s eo ef pm c ez ev cov di,
    has_shape (final_dist (decoder_forward w y s eo ef pm c ez ev cov di)) B V;
  ws_attn : forall w y s eo ef pm c ez ev cov di,
    is_coverage config = true ->
    has_shape (attn_dist (decoder_forward w y s eo ef pm c ez ev cov di)) B L;
  ws_next : forall w y s eo ef pm c ez ev cov di,
    coverage_shape
      (next_coverage (decoder_forward w y s eo ef pm c ez ev cov di)) B L
}.

(** The decoder output of round [di], entered in state [st]. *)
Definition decoder_out_at (m : Model) (batch : Batch) (st : DecodeState)
    (di : nat) : option DecoderOut :=
  let inp := get_input_from_batch batch USE_CUDA in
  let out := get_output_from_batch batch USE_CUDA in
  let '(encoder_outputs, encoder_feature, _) :=
    encoder_forward (state_dict (encoder m)) (enc_batch inp) (enc_lens inp) in
  y_t_1 <- column (dec_batch out) di ;;
  Some (call_decoder m inp encoder_outputs encoder_feature st y_t_1 di).

(** Round [di] of the decoding loop, entered in state [st]. *)
Definition decode_round (m : Model) (batch : Batch) (st : DecodeState)
    (di : nat) : option DecodeState :=
  let inp := get_input_from_batch batch USE_CUDA in
  let out := get_output_from_batch batch USE_CUDA in
  let '(encoder_outputs, encoder_feature, _) :=
    encoder_forward (state_dict (encoder m)) (enc_batch inp) (enc_lens inp) in
  decode_step m inp out encoder_outputs encoder_feature st di.

(** What a round that does not raise computes from the decoder output
    [d]: [raw] is the step loss before masking, [loss] after. *)
Definition round_spec (batch : Batch) (st : DecodeState) (di : nat)
    (d : DecoderOut) (raw loss : vec) (st' : DecodeState) : Prop :=
  let out := get_output_from_batch batch USE_CUDA in
  exists y target gold_probs step_mask,
    column (dec_batch out) di = Some y /\
    column (target_batch out) di = Some target /\
    gather1 (final_dist d) target = Some gold_probs /\
    column (dec_padding_mask out) di = Some step_mask /\
    (if is_coverage config
     then exists scl,
            step_coverage_loss (attn_dist d) (coverage st) = Some scl /\
            add (neg_log_plus (eps config) gold_probs)
                (scale (cov_loss_wt config) scl) = Some raw
     else raw = neg_log_plus (eps config) gold_probs) /\
    mul raw step_mask = Some loss /\
    st' = {| s_t_1 := s_t d;
             c_t_1 := c_t d;
             coverage := if is_coverage config then next_coverage d
                         else coverage st;
             step_losses := step_losses st ++ [loss];
             fed := fed st ++ [y] |}.

(** Sum over the decode steps of example [b]'s step losses, and its
    quotient by the example's target length. *)
Definition example_total (losses : list vec) (b : nat) : R :=
  sum (map (fun l => nth b l 0) losses).

Definition example_avg (losses : list vec) (dec_lens : vec) (b : nat) : R :=
  example_total losses b / nth b dec_lens 0.

(** Sum over the source positions of the element-wise minimum of one
    row of the attention distribution and one row of the coverage. *)
Definition row_min_sum (attn_row cov_row : vec) : R :=
  sum (map (fun xy => Rmin (fst xy) (snd xy)) (combine attn_row cov_row)).

(** The optimizer [setup_train] constructs before it looks at the
    checkpoint. *)
Definition fresh_optimizer (m : Model) : Optimizer :=
  AdagradCustom
    (state_dict (encoder m) ++ state_dict (decoder m)
     ++ state_dict (reduce_state m))
    (if is_coverage config then lr_coverage config else lr config)
    (adagrad_init_acc config).

(** The events of lines 166-172 when nothing raises. *)
Definition checkpoint_events (evaluate : bool) (self : Train) (files : FS)
    (running_avg_loss : R) (iter : nat) : list event :=
  if (iter mod 5000 =? 0)%nat then
    let path := fst (save_model self files running_avg_loss iter) in
    [LogSavingModel (iter + 1);
     TorchSave path (checkpoint_of self running_avg_loss iter)]
    ++ (if evaluate then [BeamSearchDecode path] else [])
  else [].

(** The events of one round of the [while] loop in which nothing
    raises. *)
Definition iteration_events (evaluate : bool) (v : LoopVars) (loss : R)
    (self' : Train) : list event :=
  let iter := S (lv_iter v) in
  let running_avg_loss :=
    calc_running_avg_loss loss (lv_running_avg_loss v) (lv_iter v) in
  [LogStartingIteration (lv_iter v + 1);
   NextBatch (batches_drawn (lv_self v));
   TrainedBatch loss]
  ++ (if (iter mod 100 =? 0)%nat then [SummaryFlush] else [])
  ++ (if (iter mod 1000 =? 0)%nat then [LogSteps iter loss] else [])
  ++ checkpoint_events evaluate self' (fs (lv_world v)) running_avg_loss iter
  ++ [LogIterationEnded (iter + 1); LogTimeTaken (iter + 1)].

(** Lines 37-42 of [__init__]: the directory of the run and the
    directory of its checkpoints, from [config.log_root] and
    [int(time.time())].  (The vocabulary, the batcher, the creation of
    the directories and the summary writer are not modelled.) *)
Definition init_train_dir (log_root : string) (now : nat) : string :=
  os_path_join log_root ("train_" ++ fmt_d now)%string.

Definition init_model_dir (log_root : string) (now : nat) : string :=
  os_path_join (init_train_dir log_root now) "model".

(** [c] does not occur in [s]. *)
Fixpoint avoids (c : ascii) (s : string) : bool :=
  match s with
  | EmptyString => true
  | String a s' => negb (Ascii.eqb a c) && avoids c s'
  end.

(** The number that a decimal string denotes. *)
Definition parse_d (s : string) : option nat :=
  option_map Nat.of_uint (NilZero.uint_of_string s).

(** More readers of a trace: the checkpoints written, the paths handed
    to the evaluator, and the numbers of the log lines. *)
Fixpoint saved (tr : list event) : list (string * Checkpoint) :=
  match tr with
  | [] => []
  | TorchSave path state :: tr' => (path, state) :: saved tr'
  | _ :: tr' => saved tr'
  end.

Fixpoint evaluated (tr : list event) : list string :=
  match tr with
  | [] => []
  | BeamSearchDecode path :: tr' => path :: evaluated tr'
  | _ :: tr' => evaluated tr'
  end.

Fixpoint saving_logged (tr : list event) : list nat :=
  match tr with
  | [] => []
  | LogSavingModel n :: tr' => n :: saving_logged tr'
  | _ :: tr' => saving_logged tr'
  end.

Fixpoint ended (tr : list event) : list nat :=
  match tr with
  | [] => []
  | LogIterationEnded n :: tr' => n :: ended tr'
  | _ :: tr' => ended tr'
  end.

Fixpoint flushes (tr : list event) : nat :=
  match tr with
  | [] => 0
  | SummaryFlush :: tr' => S (flushes tr')
  | _ :: tr' => flushes tr'
  end.

Fixpoint steps_logged (tr : list event) : list nat :=
  match tr with
  | [] => []
  | LogSteps iter _ :: tr' => iter :: steps_logged tr'
  | _ :: tr' => steps_logged tr'
  end.

(** The multiples of [k] among [lo + 1, ..., hi]. *)
Definition multiples (k lo hi : nat) : list nat :=
  filter (fun i => (i mod k =? 0)%nat) (seq (lo + 1) (hi - lo)).

(** The files after the checkpoints [cks] have been written, in order. *)
Definition write_all (cks : list (string * Checkpoint)) (files : FS) : FS :=
  fold_left (fun fs' pc => torch_save (snd pc) (fst pc) fs') cks files.

(** Conditions under which no step loss is negative: masks are
    non-negative, every probability [p] of the decoder's output
    distribution has [0 < p + eps <= 1], and, with coverage on, the
    coverage weight, the attention and the coverage are non-negative. *)
Record loss_conditions (batch : Batch) : Prop := {
  lc_mask :
    nonneg (dec_padding_mask (get_output_from_batch batch USE_CUDA));
  lc_lens :
    Forall (fun l => 0 < l)
           (dec_lens_var (get_output_from_batch batch USE_CUDA));
  lc_final : forall w y s eo ef pm c ez ev cov di,
    Forall (Forall (fun p => 0 < p + eps config <= 1))
           (final_dist (decoder_forward w y s eo ef pm c ez ev cov di));
  lc_weight : is_coverage config = true -> 0 <= cov_loss_wt config;
  lc_coverage : forall c,
    in_coverage (get_input_from_batch batch USE_CUDA) = Some c -> nonneg c;
  lc_attn : forall w y s eo ef pm c ez ev cov di,
    nonneg (attn_dist (decoder_forward w y s eo ef pm c ez ev cov di));
  lc_next : forall w y s eo ef pm c ez ev cov di c',
    next_coverage (decoder_forward w y s eo ef pm c ez ev cov di) = Some c' ->
    nonneg c'
}.



(** Reading a trace. *)
Fixpoint started (tr : list event) : list nat :=
  match tr with
  | [] => []
  | LogStartingIteration n :: tr' => n :: started tr'
  | _ :: tr' => started tr'
  end.

Fixpoint trained (tr : list event) : nat :=
  match tr with
  | [] => 0
  | TrainedBatch _ :: tr' => S (trained tr')
  | _ :: tr' => trained tr'
  end.

(** Every checkpoint written in [tr] stores as ['iter'] the number of
    training steps completed when it is written, [done] of them before
    [tr] starts. *)
Fixpoint saves_count_done (done : nat) (tr : list event) : Prop :=
  match tr with
  | [] => True
  | TrainedBatch _ :: tr' => saves_count_done (S done) tr'
  | TorchSave _ state :: tr' =>
      ck_iter state = done /\ saves_count_done done tr'
  | _ :: tr' => saves_count_done done tr'
  end.

(** The file name [save_model] gives to the checkpoint of [iter]. *)
Definition checkpoint_name (iter : nat) : string :=
  ("model_" ++ fmt_d iter ++ "_" ++ fmt_d (time_at iter))%string.

(** What the rounds that take the loop from [v] to [v'] have done, read
    off their events [evs]. *)
Record run_facts (evaluate : bool) (v v' : LoopVars) (evs : list event)
  : Prop := {
  rf_iter : (lv_iter v <= lv_iter v')%nat;
  rf_dir : model_dir (lv_self v') = model_dir (lv_self v);
  rf_saved_iters :
    map (fun pc => ck_iter (snd pc)) (saved evs)
    = multiples 5000 (lv_iter v) (lv_iter v');
  rf_saved_paths :
    Forall (fun pc => fst pc = os_path_join (model_dir (lv_self v))
                                 (checkpoint_name (ck_iter (snd pc))))
           (saved evs);
  rf_evaluated :
    evaluated evs = if evaluate then map fst (saved evs) else [];
  rf_saving_logged :
    saving_logged evs = map (fun pc => (ck_iter (snd pc) + 1)%nat) (saved evs);
  rf_ended : ended evs = map S (started evs);
  rf_flushes :
    flushes evs = length (multiples 100 (lv_iter v) (lv_iter v'));
  rf_steps : steps_logged evs = multiples 1000 (lv_iter v) (lv_iter v');
  rf_files :
    (evaluate = true ->
     forall files path files',
       beam_search_decode files path = Ok files' ->
       forall p, torch_load files' p = torch_load files p) ->
    forall p,
      torch_load (fs (lv_world v')) p
      = torch_load (write_all (saved evs) (fs (lv_world v))) p
}.

(* =============================================================== *)
(** ** Tensor primitives: what they return and when *)

Unset Implicit Arguments.

Ltac inv H := inversion H; subst; clear H.

(** Case analysis on the scrutinee of a monadic bind in hypothesis [H]. *)
Ltac bind_inv H :=
  match type of H with
  | obind ?m _ = Some _ =>
      let E := fresh "E" in
      destruct m eqn:E; [cbn [obind] in H | discriminate H]
  end.

Lemma entry_cons_S (A : Type) (row : list A) (t : list (list A)) (b j : nat) :
  entry (row :: t) (S b) j = entry t b j.
Proof. reflexivity. Qed.

Lemma column_length (A : Type) (t : list (list A)) (di : nat) (c : list A) :
  column t di = Some c -> length c = length t.
Proof.
  revert c; induction t as [|row t IH]; intros c H; cbn in H.
  - inv H. reflexivity.
  - bind_inv H. bind_inv H. inv H. cbn. f_equal. now apply IH.
Qed.

Lemma column_nth (A : Type) (t : list (list A)) (di : nat) (c : list A) :
  column t di = Some c -> forall b, nth_error c b = entry t b di.
Proof.
  revert c; induction t as [|row t IH]; intros c H b; cbn in H.
  - inv H. destruct b; reflexivity.
  - bind_inv H. bind_inv H. inv H. destruct b as [|b].
    + cbn. now rewrite E.
    + rewrite entry_cons_S. cbn [nth_error]. now apply IH.
Qed.

Lemma column_total (A : Type) (t : list (list A)) (B K di : nat) :
  has_columns t B K -> (di < K)%nat -> exists c, column t di = Some c.
Proof.
  intros [_ Hrows] Hdi. clear B.
  induction Hrows as [|row t Hrow _ IH]; cbn.
  - now exists [].
  - destruct IH as [c ->].
    destruct (nth_error row di) as [x|] eqn:E.
    + cbn. now exists (x :: c).
    + apply nth_error_None in E. lia.
Qed.

Lemma gather1_length (input : mat) (index : list nat) (g : vec) :
  gather1 input index = Some g -> length g = length index.
Proof.
  revert input g; induction index as [|i index IH]; intros input g H; cbn in H.
  - inv H. reflexivity.
  - destruct input as [|row input]; [discriminate|].
    bind_inv H. bind_inv H. inv H. cbn. f_equal. eapply IH; eassumption.
Qed.

Lemma gather1_nth (input : mat) (index : list nat) (g : vec) :
  gather1 input index = Some g ->
  forall b i, nth_error index b = Some i -> nth_error g b = entry input b i.
Proof.
  revert input g; induction index as [|i0 index IH]; intros input g H b i Hb;
    cbn in H.
  - destruct b; discriminate.
  - destruct input as [|row input]; [discriminate|].
    bind_inv H. bind_inv H. inv H. destruct b as [|b]; cbn in Hb.
    + inv Hb. cbn. now rewrite E.
    + rewrite entry_cons_S. cbn [nth_error]. eapply IH; eassumption.
Qed.

Lemma gather1_total (input : mat) (index : list nat) (B V : nat) :
  has_shape input B V -> length index = B ->
  Forall (fun id => (id < V)%nat) index ->
  exists g, gather1 input index = Some g.
Proof.
  intros [Hlen Hrows] Hidx Hin. rewrite <- Hidx in Hlen. clear Hidx B.
  revert input Hlen Hrows; induction Hin as [|i index Hi _ IH];
    intros input Hlen Hrows; cbn.
  - now exists [].
  - destruct input as [|row input]; [discriminate|].
    inv Hrows. cbn in Hlen. injection Hlen as Hlen.
    destruct (IH input Hlen H2) as [g ->].
    destruct (nth_error row i) as [x|] eqn:E.
    + cbn. now exists (x :: g).
    + apply nth_error_None in E. lia.
Qed.

Lemma zip_exact_length (A B C : Type) (f : A -> B -> C) a b r :
  zip_exact f a b = Some r -> length a = length r /\ length b = length r.
Proof.
  revert b r; induction a as [|x a IH]; intros [|y b] r H; cbn in H;
    try discriminate.
  - inv H. auto.
  - bind_inv H. inv H. destruct (IH _ _ E). cbn. auto.
Qed.

Lemma zip_exact_nth (A B C : Type) (f : A -> B -> C) a b r :
  zip_exact f a b = Some r ->
  forall k x y, nth_error a k = Some x -> nth_error b k = Some y ->
  nth_error r k = Some (f x y).
Proof.
  revert b r; induction a as [|x0 a IH]; intros [|y0 b] r H k x y Hx Hy;
    cbn in H; try discriminate.
  - destruct k; discriminate.
  - bind_inv H. inv H. destruct k as [|k]; cbn in *.
    + now inv Hx; inv Hy.
    + eapply IH; eassumption.
Qed.

Lemma zip_exact_combine (A B C : Type) (f : A -> B -> C) a b r :
  zip_exact f a b = Some r ->
  r = map (fun xy => f (fst xy) (snd xy)) (combine a b).
Proof.
  revert b r; induction a as [|x a IH]; intros [|y b] r H; cbn in H;
    try discriminate.
  - now inv H.
  - bind_inv H. inv H. cbn. f_equal. now apply IH.
Qed.

Lemma zip_exact_total (A B C : Type) (f : A -> B -> C) a b :
  length a = length b -> exists r, zip_exact f a b = Some r.
Proof.
  revert b; induction a as [|x a IH]; intros [|y b] H; cbn in *;
    try discriminate.
  - now exists [].
  - injection H as H. destruct (IH _ H) as [r ->]. cbn. eauto.
Qed.

Lemma min2_length (a c m : mat) :
  min2 a c = Some m -> length m = length a.
Proof.
  revert c m; induction a as [|ra a IH]; intros [|rc c] m H; cbn in H;
    try discriminate.
  - now inv H.
  - bind_inv H. bind_inv H. inv H. cbn. f_equal. eapply IH; eassumption.
Qed.

Lemma min2_nth (a c m : mat) :
  min2 a c = Some m ->
  forall b ra rc, nth_error a b = Some ra -> nth_error c b = Some rc ->
  nth_error m b =
    Some (map (fun xy => Rmin (fst xy) (snd xy)) (combine ra rc)).
Proof.
  revert c m; induction a as [|ra0 a IH]; intros [|rc0 c] m H b ra rc Ha Hc;
    cbn in H; try discriminate.
  - destruct b; discriminate.
  - bind_inv H. bind_inv H. inv H. destruct b as [|b]; cbn in *.
    + inv Ha. inv Hc. f_equal. now apply zip_exact_combine.
    + eapply IH; eassumption.
Qed.

Lemma min2_total (a c : mat) (B L : nat) :
  has_shape a B L -> has_shape c B L -> exists m, min2 a c = Some m.
Proof.
  intros [Ha Hra] [Hc Hrc]. subst B.
  revert c Hc Hrc; induction Hra as [|ra a Hr _ IH]; intros [|rc c] Hc Hrc;
    cbn in *; try discriminate.
  - now exists [].
  - injection Hc as Hc. inv Hrc.
    destruct (IH _ Hc H2) as [m ->].
    destruct (@zip_exact_total _ _ _ Rmin ra rc) as [r ->]; [congruence|].
    cbn. eauto.
Qed.

Lemma sum1_nth (m : mat) (b : nat) :
  nth_error (sum1 m) b = option_map sum (nth_error m b).
Proof. unfold sum1. apply nth_error_map. Qed.

Lemma stack1_total (ts : list vec) (B : nat) :
  ts <> [] -> Forall (fun t => length t = B) ts ->
  stack1 ts =
    Some (map (fun b => map (fun t => nth b t 0) ts) (seq 0 B)).
Proof.
  intros Hne Hall. destruct ts as [|t0 ts']; [congruence|].
  unfold stack1.
  assert (Hb : forallb (fun t => Nat.eqb (length t) (length t0)) (t0 :: ts')
               = true).
  { apply forallb_forall. intros t Ht. apply Nat.eqb_eq.
    rewrite Forall_forall in Hall.
    rewrite (Hall t Ht). symmetry. apply Hall. now left. }
  rewrite Hb. inv Hall. reflexivity.
Qed.

Lemma stack1_inv (ts : list vec) (stacked : mat) :
  stack1 ts = Some stacked ->
  exists B, ts <> [] /\ Forall (fun t => length t = B) ts /\
    stacked = map (fun b => map (fun t => nth b t 0) ts) (seq 0 B).
Proof.
  unfold stack1. destruct ts as [|t0 ts']; [discriminate|].
  destruct (forallb _ _) eqn:Hb; [|discriminate].
  intros H. inv H. exists (length t0). split; [congruence|]. split; [|reflexivity].
  apply Forall_forall. intros t Ht.
  rewrite forallb_forall in Hb. apply Nat.eqb_eq. now apply Hb.
Qed.

(* =============================================================== *)
(** ** The decoding loop *)

Lemma for_range_app (S : Type) (body : S -> nat -> option S) r1 r2 st :
  for_range body (r1 ++ r2) st =
  (st' <- for_range body r1 st ;; for_range body r2 st').
Proof.
  revert st; induction r1 as [|di r1 IH]; intros st; cbn.
  - reflexivity.
  - destruct (body st di) as [st1|]; cbn; [apply IH | reflexivity].
Qed.

Lemma decode_loop_0 (m : Model) (batch : Batch) :
  exists st, decode_loop m batch 0 = Some st /\
    coverage st = in_coverage (get_input_from_batch batch USE_CUDA) /\
    step_losses st = [] /\ fed st = [].
Proof.
  unfold decode_loop. destruct (encoder_forward _ _ _) as [[eo ef] eh].
  cbn. eexists; split; [reflexivity|]. cbn. auto.
Qed.

Lemma decode_loop_S (m : Model) (batch : Batch) (n : nat) :
  decode_loop m batch (S n) =
  (st <- decode_loop m batch n ;; decode_round m batch st n).
Proof.
  unfold decode_loop, decode_round.
  destruct (encoder_forward _ _ _) as [[eo ef] eh].
  rewrite seq_S, for_range_app. cbn.
  destruct (for_range _ _ _) as [st|]; cbn; [|reflexivity].
  now destruct (decode_step _ _ _ _ _ _ _).
Qed.

Lemma decode_round_inv (m : Model) (batch : Batch) st di st' :
  decode_round m batch st di = Some st' ->
  exists d raw loss,
    decoder_out_at m batch st di = Some d /\
    round_spec batch st di d raw loss st'.
Proof.
  unfold decode_round, decoder_out_at, decode_step, round_spec.
  destruct (encoder_forward _ _ _) as [[eo ef] eh].
  intros H. bind_inv H. bind_inv H. bind_inv H.
  destruct (is_coverage config) eqn:Hcov.
  - bind_inv H. rename E2 into Hlc. bind_inv Hlc. bind_inv Hlc. inv Hlc.
    cbn [obind fst snd] in H. bind_inv H. bind_inv H. inv H.
    repeat first [reflexivity | eassumption | split | eexists].
  - cbn [obind fst snd] in H. bind_inv H. bind_inv H. inv H.
    repeat first [reflexivity | eassumption | split | eexists].
Qed.

Lemma column_Forall (A : Type) (P : A -> Prop) (t : list (list A)) di c :
  column t di = Some c -> Forall (Forall P) t -> Forall P c.
Proof.
  revert c; induction t as [|row t IH]; intros c H Hall; cbn in H.
  - inv H. constructor.
  - bind_inv H. bind_inv H. inv H. inv Hall. constructor.
    + rewrite Forall_forall in H1. apply H1. eapply nth_error_In; eassumption.
    + now apply IH.
Qed.

Lemma length_neg_log_plus e t : length (neg_log_plus e t) = length t.
Proof. apply length_map. Qed.

Lemma length_scale c t : length (scale c t) = length t.
Proof. apply length_map. Qed.

Lemma length_sum1 t : length (sum1 t) = length t.
Proof. apply length_map. Qed.

Lemma step_coverage_loss_total (attn c : mat) (B L : nat) :
  has_shape attn B L -> has_shape c B L ->
  exists scl, step_coverage_loss attn (Some c) = Some scl /\ length scl = B.
Proof.
  intros Ha Hc. destruct (min2_total _ _ _ _ Ha Hc) as [m Hm].
  unfold step_coverage_loss. cbn. rewrite Hm. cbn.
  eexists; split; [reflexivity|].
  rewrite length_sum1, (min2_length _ _ _ Hm). apply Ha.
Qed.

(** A round does not raise on a well-shaped batch. *)
Lemma decode_round_total (B L V : nat) (m : Model) (batch : Batch) st di :
  well_shaped B L V batch ->
  coverage_shape (coverage st) B L ->
  (di < decode_steps batch)%nat ->
  exists st', decode_round m batch st di = Some st' /\
              coverage_shape (coverage st') B L.
Proof.
  intros W Hcov Hdi. unfold decode_round, decode_step.
  destruct (encoder_forward _ _ _) as [[eo ef] eh].
  destruct (column_total _ _ _ _ _ (ws_dec_batch W) Hdi) as [y ->]. cbn [obind].
  destruct (column_total _ _ _ _ _ (ws_target W) Hdi) as [target Ht]. rewrite Ht.
  cbn [obind].
  assert (Hlt : length target = B).
  { rewrite (column_length _ _ _ _ Ht). apply (ws_target W). }
  unfold call_decoder.
  match goal with
  | |- context [gather1 ?fd target] =>
      destruct (gather1_total fd target B V) as [gold Hg];
      [ apply (ws_final W) | exact Hlt
      | exact (column_Forall _ _ _ _ _ Ht (ws_gold W)) | ]
  end.
  rewrite Hg. cbn [obind].
  assert (Hgl : length (neg_log_plus (eps config) gold) = B).
  { rewrite length_neg_log_plus, (gather1_length _ _ _ Hg). exact Hlt. }
  destruct (column_total _ _ _ _ _ (ws_mask W) Hdi) as [mask Hm]. rewrite Hm.
  assert (Hml : length mask = B).
  { rewrite (column_length _ _ _ _ Hm). apply (ws_mask W). }
  destruct (is_coverage config) eqn:Hc.
  - destruct (Hcov Hc) as [c [-> Hcs]].
    match goal with
    | |- context [step_coverage_loss ?a (Some c)] =>
        destruct (step_coverage_loss_total a c B L) as [scl [-> Hsl]];
        [ apply (ws_attn W); exact Hc | exact Hcs | ]
    end.
    cbn [obind].
    destruct (@zip_exact_total _ _ _ Rplus
                (neg_log_plus (eps config) gold)
                (scale (cov_loss_wt config) scl)) as [raw Hr].
    { rewrite length_scale. congruence. }
    unfold add. rewrite Hr. cbn [obind fst snd].
    destruct (@zip_exact_total _ _ _ Rmult raw mask) as [loss Hl].
    { destruct (zip_exact_length _ _ _ _ _ _ _ Hr). congruence. }
    unfold mul. rewrite Hl. cbn [obind].
    eexists; split; [reflexivity|]. cbn. apply (ws_next W).
  - cbn [obind fst snd].
    destruct (@zip_exact_total _ _ _ Rmult
                (neg_log_plus (eps config) gold) mask) as [loss Hl].
    { congruence. }
    unfold mul. rewrite Hl. cbn [obind].
    eexists; split; [reflexivity|]. cbn. exact Hcov.
Qed.

(** The loop does not raise on a well-shaped batch. *)
Lemma decode_loop_total (B L V : nat) (m : Model) (batch : Batch) (n : nat) :
  well_shaped B L V batch -> (n <= decode_steps batch)%nat ->
  exists st, decode_loop m batch n = Some st /\
             coverage_shape (coverage st) B L.
Proof.
  intros W. induction n as [|n IH]; intros Hn.
  - destruct (decode_loop_0 m batch) as [st [H0 [Hc _]]].
    exists st. split; [exact H0|]. rewrite Hc. apply (ws_coverage W).
  - destruct IH as [st [Hst Hc]]; [lia|].
    rewrite decode_loop_S, Hst. cbn [obind].
    eapply decode_round_total; eauto.
Qed.

(** What the loop has accumulated after [n] rounds. *)
Lemma decode_loop_inv (m : Model) (batch : Batch) (n : nat) st :
  decode_loop m batch n = Some st ->
  length (step_losses st) = n /\
  length (fed st) = n /\
  Forall (fun l => length l =
            length (dec_padding_mask (get_output_from_batch batch USE_CUDA)))
         (step_losses st) /\
  forall di, (di < n)%nat ->
    nth_error (fed st) di =
    column (dec_batch (get_output_from_batch batch USE_CUDA)) di.
Proof.
  revert st; induction n as [|n IH]; intros st H.
  - destruct (decode_loop_0 m batch) as [st0 [H0 [_ [Hl Hf]]]].
    rewrite H0 in H. inv H. rewrite Hl, Hf. cbn.
    repeat split; auto. intros; lia.
  - rewrite decode_loop_S in H.
    destruct (decode_loop m batch n) as [stn|] eqn:En; [|discriminate].
    cbn [obind] in H.
    destruct (IH _ eq_refl) as [IH1 [IH2 [IH3 IH4]]].
    apply decode_round_inv in H.
    destruct H as (d & raw & loss & _ & y & tg & gp & mk & Hy & _ & _ & Hmk
                   & _ & Hmul & ->). cbn.
    rewrite !length_app, IH1, IH2. cbn.
    repeat split; try lia.
    + apply Forall_app. split; [exact IH3|]. constructor; [|constructor].
      destruct (zip_exact_length _ _ _ _ _ _ _ Hmul) as [_ <-].
      now apply column_length in Hmk.
    + intros di Hdi. destruct (Nat.eq_dec di n) as [->|Hne].
      * rewrite nth_error_app2 by lia. rewrite IH2, Nat.sub_diag. cbn.
        now rewrite Hy.
      * rewrite nth_error_app1 by lia. apply IH4. lia.
Qed.

(** The loop only appends: the state after [k] rounds is a prefix of
    the state after [n >= k] rounds. *)
Lemma decode_loop_prefix (m : Model) (batch : Batch) (n : nat) st :
  decode_loop m batch n = Some st ->
  forall k, (k <= n)%nat ->
  exists stk, decode_loop m batch k = Some stk /\
              step_losses stk = firstn k (step_losses st) /\
              fed stk = firstn k (fed st).
Proof.
  revert st; induction n as [|n IH]; intros st H k Hk.
  - assert (k = 0%nat) by lia. subst k. exists st. split; [exact H|].
    destruct (decode_loop_inv _ _ _ _ H) as [H1 [H2 _]].
    destruct (step_losses st), (fed st); try discriminate. auto.
  - destruct (Nat.eq_dec k (S n)) as [->|Hne].
    + exists st. split; [exact H|].
      destruct (decode_loop_inv _ _ _ _ H) as [H1 [H2 _]].
      split; symmetry; apply firstn_all2; lia.
    + pose proof H as H'. rewrite decode_loop_S in H'.
      destruct (decode_loop m batch n) as [stn|] eqn:En; [|discriminate].
      cbn [obind] in H'.
      destruct (IH _ eq_refl k) as [stk [Hk1 [Hk2 Hk3]]]; [lia|].
      destruct (decode_loop_inv _ _ _ _ En) as [H1 [H2 _]].
      apply decode_round_inv in H'.
      destruct H' as (d & raw & loss & _ & y & tg & gp & mk & _ & _ & _ & _
                      & _ & _ & ->). cbn.
      exists stk. split; [exact Hk1|].
      rewrite !firstn_app.
      replace (k - length (step_losses stn))%nat with 0%nat by lia.
      replace (k - length (fed stn))%nat with 0%nat by lia.
      cbn. rewrite !app_nil_r. auto.
Qed.

(* =============================================================== *)
(** ** The coverage term *)

Lemma sum_nonneg (t : vec) : Forall (fun x => 0 <= x) t -> 0 <= sum t.
Proof.
  induction 1 as [|x t Hx _ IH]; unfold sum in *; cbn; lra.
Qed.

Lemma row_min_sum_nonneg (ra rc : vec) :
  Forall (fun x => 0 <= x) ra -> Forall (fun x => 0 <= x) rc ->
  0 <= row_min_sum ra rc.
Proof.
  intros Ha Hc. apply sum_nonneg. apply Forall_forall.
  intros x Hx. apply in_map_iff in Hx. destruct Hx as [[u v] [<- Hin]].
  rewrite Forall_forall in Ha, Hc. cbn.
  apply Rmin_glb.
  - apply Ha. eapply in_combine_l; eassumption.
  - apply Hc. eapply in_combine_r; eassumption.
Qed.

Lemma step_coverage_loss_nth (attn cov : mat) (scl : vec) :
  step_coverage_loss attn (Some cov) = Some scl ->
  forall b ra rc, nth_error attn b = Some ra -> nth_error cov b = Some rc ->
  nth_error scl b = Some (row_min_sum ra rc).
Proof.
  unfold step_coverage_loss. cbn [obind]. intros H b ra rc Ha Hc.
  destruct (min2 attn cov) as [m|] eqn:Hm; [|discriminate]. cbn in H. inv H.
  rewrite sum1_nth, (min2_nth _ _ _ Hm _ _ _ Ha Hc). reflexivity.
Qed.

Lemma step_coverage_loss_rows (attn cov : mat) (scl : vec) :
  step_coverage_loss attn (Some cov) = Some scl ->
  length attn = length scl /\ length cov = length scl.
Proof.
  unfold step_coverage_loss. cbn [obind]. intros H.
  destruct (min2 attn cov) as [m|] eqn:Hm; [|discriminate]. cbn in H. inv H.
  rewrite length_sum1. clear -Hm.
  revert cov m Hm; induction attn as [|ra a IH]; intros [|rc c] m H;
    cbn in H; try discriminate.
  - inv H. auto.
  - bind_inv H. bind_inv H. inv H. destruct (IH _ _ E0). cbn. auto.
Qed.

(** C9.  For element-wise non-negative attention and coverage tensors
    of the same shape, the per-step coverage loss
    [torch.sum(torch.min(attn_dist, coverage), 1)] is computed and every
    entry of it (one per example) is non-negative. *)
Theorem coverage_loss_nonneg (attn cov : mat) (B L : nat) :
  has_shape attn B L -> has_shape cov B L ->
  nonneg attn -> nonneg cov ->
  exists scl, step_coverage_loss attn (Some cov) = Some scl /\
              length scl = B /\
              Forall (fun x => 0 <= x) scl.
Proof.
  intros Ha Hc Na Nc.
  destruct (step_coverage_loss_total _ _ _ _ Ha Hc) as [scl [Hs Hl]].
  exists scl. repeat split; auto.
  apply Forall_forall. intros x Hx.
  apply In_nth_error in Hx. destruct Hx as [b Hb].
  destruct (step_coverage_loss_rows _ _ _ Hs) as [La Lc].
  assert (Hlt : (b < length scl)%nat).
  { apply nth_error_Some. congruence. }
  destruct (nth_error attn b) as [ra|] eqn:Era;
    [|apply nth_error_None in Era; lia].
  destruct (nth_error cov b) as [rc|] eqn:Erc;
    [|apply nth_error_None in Erc; lia].
  rewrite (step_coverage_loss_nth _ _ _ Hs _ _ _ Era Erc) in Hb. inv Hb.
  apply row_min_sum_nonneg.
  - unfold nonneg in Na. rewrite Forall_forall in Na. apply Na.
    eapply nth_error_In; eassumption.
  - unfold nonneg in Nc. rewrite Forall_forall in Nc. apply Nc.
    eapply nth_error_In; eassumption.
Qed.

(* =============================================================== *)
(** ** The step loss of one example *)

Lemma nth_error_ex (A : Type) (l : list A) (b : nat) :
  (b < length l)%nat -> exists x, nth_error l b = Some x.
Proof.
  intros H. destruct (nth_error l b) as [x|] eqn:E; [eauto|].
  apply nth_error_None in E. lia.
Qed.

(** Entry [b] of the step loss of a round, before ([r]) and after the
    mask, in terms of entry [b] of the tensors the round reads. *)
Lemma round_loss_entry (batch : Batch) st di d raw loss st' :
  round_spec batch st di d raw loss st' ->
  forall b mask gold p,
    entry (dec_padding_mask (get_output_from_batch batch USE_CUDA)) b di
      = Some mask ->
    entry (target_batch (get_output_from_batch batch USE_CUDA)) b di
      = Some gold ->
    entry (final_dist d) b gold = Some p ->
    exists r,
      nth_error raw b = Some r /\
      nth_error loss b = Some (r * mask) /\
      if is_coverage config
      then exists scl s,
             step_coverage_loss (attn_dist d) (coverage st) = Some scl /\
             nth_error scl b = Some s /\
             r = - ln (p + eps config) + cov_loss_wt config * s
      else r = - ln (p + eps config).
Proof.
  intros (y & target & gold_probs & step_mask & Hy & Ht & Hg & Hm & Hraw
          & Hmul & _) b mask gold p Emask Egold Ep.
  rewrite <- (column_nth _ _ _ _ Hm) in Emask.
  rewrite <- (column_nth _ _ _ _ Ht) in Egold.
  rewrite <- (gather1_nth _ _ _ Hg _ _ Egold) in Ep.
  assert (Hnll : nth_error (neg_log_plus (eps config) gold_probs) b
                 = Some (- ln (p + eps config))).
  { unfold neg_log_plus. rewrite nth_error_map, Ep. reflexivity. }
  destruct (is_coverage config).
  - destruct Hraw as [scl [Hscl Hadd]].
    assert (Hb : (b < length scl)%nat).
    { destruct (zip_exact_length _ _ _ _ _ _ _ Hadd) as [L1 L2].
      rewrite length_scale in L2. rewrite L2, <- L1.
      apply nth_error_Some. congruence. }
    destruct (nth_error_ex _ _ _ Hb) as [s Hs].
    assert (Hsc : nth_error (scale (cov_loss_wt config) scl) b
                  = Some (cov_loss_wt config * s)).
    { unfold scale. rewrite nth_error_map, Hs. reflexivity. }
    exists (- ln (p + eps config) + cov_loss_wt config * s). split.
    + exact (zip_exact_nth _ _ _ _ _ _ _ Hadd _ _ _ Hnll Hsc).
    + split.
      * refine (zip_exact_nth _ _ _ _ _ _ _ Hmul _ _ _ _ Emask).
        exact (zip_exact_nth _ _ _ _ _ _ _ Hadd _ _ _ Hnll Hsc).
      * exists scl, s. auto.
  - subst raw. exists (- ln (p + eps config)). split; [exact Hnll|]. split.
    + exact (zip_exact_nth _ _ _ _ _ _ _ Hmul _ _ _ Hnll Emask).
    + reflexivity.
Qed.

(** On a well-shaped batch every example has a mask bit, a gold id and
    a gold probability at every round. *)
Lemma round_entries (B L V : nat) (batch : Batch) (d : DecoderOut) di b :
  well_shaped B L V batch ->
  has_shape (final_dist d) B V ->
  (di < decode_steps batch)%nat -> (b < B)%nat ->
  exists mask gold p,
    entry (dec_padding_mask (get_output_from_batch batch USE_CUDA)) b di
      = Some mask /\
    entry (target_batch (get_output_from_batch batch USE_CUDA)) b di
      = Some gold /\
    entry (final_dist d) b gold = Some p.
Proof.
  intros W [Hfl Hfr] Hdi Hb.
  assert (Hcol : forall (A : Type) (t : list (list A)),
             has_columns t B (decode_steps batch) ->
             exists x, entry t b di = Some x).
  { intros A t [Hl Hr]. unfold entry.
    destruct (nth_error_ex _ t b) as [row Hrow]; [lia|]. rewrite Hrow. cbn.
    apply nth_error_ex. rewrite Forall_forall in Hr.
    apply nth_error_In in Hrow. specialize (Hr _ Hrow). cbn in Hr. lia. }
  destruct (Hcol _ _ (ws_mask W)) as [mask Hmask].
  destruct (Hcol _ _ (ws_target W)) as [gold Hgold].
  exists mask, gold.
  assert (Hv : (gold < V)%nat).
  { pose proof (ws_gold W) as G. unfold entry in Hgold.
    destruct (nth_error _ b) as [row|] eqn:Er; [|discriminate]. cbn in Hgold.
    rewrite Forall_forall in G. apply nth_error_In in Er.
    specialize (G _ Er). rewrite Forall_forall in G. apply G.
    eapply nth_error_In; eassumption. }
  unfold entry at 3.
  destruct (nth_error_ex _ (final_dist d) b) as [row Hrow]; [lia|].
  rewrite Hrow. cbn.
  destruct (nth_error_ex _ row gold) as [p Hp].
  { rewrite Forall_forall in Hfr. apply nth_error_In in Hrow.
    rewrite (Hfr _ Hrow). exact Hv. }
  exists p. auto.
Qed.

Lemma decoder_out_at_shape (B L V : nat) (m : Model) (batch : Batch) st di d :
  well_shaped B L V batch ->
  decoder_out_at m batch st di = Some d ->
  has_shape (final_dist d) B V /\
  (is_coverage config = true -> has_shape (attn_dist d) B L).
Proof.
  intros W. unfold decoder_out_at, call_decoder.
  destruct (encoder_forward _ _ _) as [[eo ef] eh].
  destruct (column _ _) as [y|]; [|discriminate]. cbn. intros H. inv H.
  split; [apply (ws_final W) | apply (ws_attn W)].
Qed.

(** Round [di] of the run on a well-shaped batch: the state it is
    entered in, what the decoder returns, the state it leaves, and the
    place of its loss in the final list of step losses. *)
Lemma decode_run_round (B L V : nat) (m : Model) (batch : Batch) (di : nat) :
  well_shaped B L V batch -> (di < decode_steps batch)%nat ->
  exists st d raw loss st' stT,
    decode_loop m batch di = Some st /\
    coverage_shape (coverage st) B L /\
    decoder_out_at m batch st di = Some d /\
    round_spec batch st di d raw loss st' /\
    decode_loop m batch (S di) = Some st' /\
    decode_loop m batch (decode_steps batch) = Some stT /\
    nth_error (step_losses stT) di = Some loss /\
    length loss = B.
Proof.
  intros W Hdi.
  destruct (decode_loop_total B L V m batch di W) as [st [Hst Hc]]; [lia|].
  destruct (decode_round_total B L V m batch st di W Hc Hdi) as [st' [Hr _]].
  destruct (decode_loop_total B L V m batch (decode_steps batch) W)
    as [stT [HT _]]; [lia|].
  destruct (decode_round_inv _ _ _ _ _ Hr) as (d & raw & loss & Hd & Hspec).
  assert (HS : decode_loop m batch (S di) = Some st').
  { rewrite decode_loop_S, Hst. exact Hr. }
  assert (Hl' : step_losses st' = step_losses st ++ [loss]).
  { destruct Hspec as (y & tg & gp & mk & _ & _ & _ & _ & _ & _ & ->).
    reflexivity. }
  destruct (decode_loop_inv _ _ _ _ Hst) as [Ln _].
  destruct (decode_loop_inv _ _ _ _ HS) as [_ [_ [Hall _]]].
  destruct (decode_loop_prefix _ _ _ _ HT (S di)) as [st2 [H2 [Hp _]]]; [lia|].
  rewrite HS in H2. injection H2 as H2. subst st2.
  exists st, d, raw, loss, st', stT. repeat split; auto.
  - assert (Hn : nth_error (firstn (S di) (step_losses stT)) di = Some loss).
    { rewrite <- Hp, Hl', nth_error_app2 by lia.
      rewrite Ln, Nat.sub_diag. reflexivity. }
    rewrite nth_error_firstn in Hn.
    destruct (Nat.ltb_spec di (S di)); [exact Hn | lia].
  - rewrite Hl' in Hall. apply Forall_app in Hall. destruct Hall as [_ Hlast].
    apply Forall_inv in Hlast. rewrite Hlast. apply (ws_mask W).
Qed.

(** C2.  With coverage mode disabled, on a well-shaped batch, round
    [di] of the decoding loop appends a step loss whose entry for
    example [b] is [mask * (- ln (p + eps))], where [mask] is the
    target padding mask of [b] at position [di] and [p] is the value of
    the decoder's output distribution of that round at the gold id of
    [b] for position [di]; when the mask is zero and [p + eps] is
    positive, so that the logarithm is finite, the entry is zero
    whatever the decoder returned.  (For [p + eps <= 0] torch gives an
    infinite or undefined logarithm, whose product with a zero mask is
    not zero; [config.eps] is there to exclude that case.) *)
Theorem step_loss_is_masked_nll (B L V : nat) (m : Model) (batch : Batch)
    (di : nat) :
  well_shaped B L V batch ->
  is_coverage config = false ->
  (di < decode_steps batch)%nat ->
  exists st d loss st' stT,
    decode_loop m batch di = Some st /\
    decoder_out_at m batch st di = Some d /\
    decode_loop m batch (S di) = Some st' /\
    step_losses st' = step_losses st ++ [loss] /\
    decode_loop m batch (decode_steps batch) = Some stT /\
    nth_error (step_losses stT) di = Some loss /\
    length loss = B /\
    forall b, (b < B)%nat ->
      exists mask gold p,
        entry (dec_padding_mask (get_output_from_batch batch USE_CUDA)) b di
          = Some mask /\
        entry (target_batch (get_output_from_batch batch USE_CUDA)) b di
          = Some gold /\
        entry (final_dist d) b gold = Some p /\
        nth_error loss b = Some (mask * (- ln (p + eps config))) /\
        (mask = 0 -> 0 < p + eps config -> nth_error loss b = Some 0).
Proof.
  intros W Hcov Hdi.
  destruct (decode_run_round B L V m batch di W Hdi)
    as (st & d & raw & loss & st' & stT & Hst & _ & Hd & Hspec & HS & HT
        & Hn & Hlen).
  exists st, d, loss, st', stT. repeat split; auto.
  - destruct Hspec as (y & tg & gp & mk & _ & _ & _ & _ & _ & _ & ->).
    reflexivity.
  - intros b Hb.
    destruct (decoder_out_at_shape B L V m batch st di d W Hd) as [Hfd _].
    destruct (round_entries B L V batch d di b W Hfd Hdi Hb)
      as (mask & gold & p & Em & Eg & Ep).
    destruct (round_loss_entry _ _ _ _ _ _ _ Hspec _ _ _ _ Em Eg Ep)
      as (r & _ & Hl & Hr).
    rewrite Hcov in Hr. subst r.
    exists mask, gold, p. repeat split; auto.
    + rewrite Hl. f_equal. apply Rmult_comm.
    + intros -> _. rewrite Hl. f_equal. apply Rmult_0_r.
Qed.

(** C3.  With coverage mode enabled, on a well-shaped batch, round
    [di] adds to the step loss of example [b] the term
    [cov_loss_wt * sum_j min(attn_dist[b][j], coverage[b][j])], where
    [coverage] is the accumulator the round was entered with (the one
    also passed to the decoder); the accumulator the round leaves is
    the [next_coverage] the decoder returned. *)
Theorem coverage_term_uses_coverage_so_far (B L V : nat) (m : Model)
    (batch : Batch) (di : nat) :
  well_shaped B L V batch ->
  is_coverage config = true ->
  (di < decode_steps batch)%nat ->
  exists st d cov scl loss st',
    decode_loop m batch di = Some st /\
    coverage st = Some cov /\
    decoder_out_at m batch st di = Some d /\
    step_coverage_loss (attn_dist d) (Some cov) = Some scl /\
    decode_loop m batch (S di) = Some st' /\
    coverage st' = next_coverage d /\
    step_losses st' = step_losses st ++ [loss] /\
    forall b, (b < B)%nat ->
      exists mask gold p attn_row cov_row,
        entry (dec_padding_mask (get_output_from_batch batch USE_CUDA)) b di
          = Some mask /\
        entry (target_batch (get_output_from_batch batch USE_CUDA)) b di
          = Some gold /\
        entry (final_dist d) b gold = Some p /\
        nth_error (attn_dist d) b = Some attn_row /\
        nth_error cov b = Some cov_row /\
        nth_error scl b = Some (row_min_sum attn_row cov_row) /\
        nth_error loss b =
          Some ((- ln (p + eps config)
                 + cov_loss_wt config * row_min_sum attn_row cov_row)
                * mask).
Proof.
  intros W Hcov Hdi.
  destruct (decode_run_round B L V m batch di W Hdi)
    as (st & d & raw & loss & st' & stT & Hst & Hcs & Hd & Hspec & HS & _).
  destruct (Hcs Hcov) as [cov [Ecov [Hcl Hcr]]].
  destruct (decoder_out_at_shape B L V m batch st di d W Hd) as [Hfd Hattn].
  specialize (Hattn Hcov).
  pose proof Hspec as Hspec'.
  destruct Hspec' as (y & tg & gp & mk & _ & _ & _ & _ & Hraw & _ & Hst').
  rewrite Hcov in Hraw, Hst'. destruct Hraw as [scl [Hscl _]].
  rewrite Ecov in Hscl.
  exists st, d, cov, scl, loss, st'. repeat split; auto.
  - rewrite Hst'. reflexivity.
  - rewrite Hst'. reflexivity.
  - intros b Hb.
    destruct (round_entries B L V batch d di b W Hfd Hdi Hb)
      as (mask & gold & p & Em & Eg & Ep).
    destruct (round_loss_entry _ _ _ _ _ _ _ Hspec _ _ _ _ Em Eg Ep)
      as (r & _ & Hl & Hr).
    rewrite Hcov in Hr. destruct Hr as (scl' & s & Hscl' & Hs & ->).
    rewrite Ecov, Hscl in Hscl'. injection Hscl' as <-.
    destruct (nth_error_ex _ (attn_dist d) b) as [ra Hra];
      [destruct Hattn; lia|].
    destruct (nth_error_ex _ cov b) as [rc Hrc]; [lia|].
    pose proof (step_coverage_loss_nth _ _ _ Hscl _ _ _ Hra Hrc) as Hrow.
    rewrite Hrow in Hs. injection Hs as <-.
    exists mask, gold, p, ra, rc. repeat split; auto.
Qed.

(** C5.  On a well-shaped batch the decoding loop of [train_one_batch]
    runs exactly [min(max_dec_len, config.max_dec_steps)] rounds, each
    with one decoder call.  The call of round [di] is
    [decoder_forward] applied to column [di] of [dec_batch], the gold
    target tokens of position [di], together with the state and the
    context vector the previous round left, the encoder outputs, and
    the coverage so far: the token argument is read from the batch, not
    from what an earlier call returned.  The state the round leaves and
    its step loss are computed from what this very call returns. *)
Theorem decoding_is_teacher_forced (B L V : nat) (m : Model)
    (batch : Batch) :
  well_shaped B L V batch ->
  let inp := get_input_from_batch batch USE_CUDA in
  let out := get_output_from_batch batch USE_CUDA in
  let steps := Nat.min (max_dec_len out) (max_dec_steps config) in
  let enc :=
    encoder_forward (state_dict (encoder m)) (enc_batch inp) (enc_lens inp) in
  exists st,
    decode_loop m batch steps = Some st /\
    forward_loss m batch = batch_loss (step_losses st) (dec_lens_var out) /\
    length (fed st) = steps /\
    length (step_losses st) = steps /\
    forall di, (di < steps)%nat ->
      exists y_t_1 st_di st_next,
        nth_error (fed st) di = Some y_t_1 /\
        column (dec_batch out) di = Some y_t_1 /\
        length y_t_1 = B /\
        (forall b, nth_error y_t_1 b = entry (dec_batch out) b di) /\
        decode_loop m batch di = Some st_di /\
        decode_loop m batch (S di) = Some st_next /\
        let d :=
          decoder_forward (state_dict (decoder m)) y_t_1 (s_t_1 st_di)
            (fst (fst enc)) (snd (fst enc)) (enc_padding_mask inp)
            (c_t_1 st_di) (extra_zeros inp) (enc_batch_extend_vocab inp)
            (coverage st_di) di in
        s_t_1 st_next = s_t d /\
        c_t_1 st_next = c_t d /\
        exists raw loss, round_spec batch st_di di d raw loss st_next.
Proof.
  intros W inp out steps enc.
  destruct (decode_loop_total B L V m batch (decode_steps batch) W)
    as [st [Hst _]]; [lia|].
  fold out in Hst. change (decode_steps batch) with steps in Hst.
  exists st.
  destruct (decode_loop_inv _ _ _ _ Hst) as [Hl [Hf [_ Hfed]]].
  split; [exact Hst|]. split.
  { unfold forward_loss. change (decode_steps batch) with steps.
    rewrite Hst. reflexivity. }
  split; [exact Hf|]. split; [exact Hl|].
  intros di Hdi.
  destruct (column_total _ _ _ _ _ (ws_dec_batch W) Hdi) as [y Hy].
  destruct (decode_run_round B L V m batch di W Hdi)
    as (st0 & d & raw & loss & st1 & stT & Hst0 & _ & Hd & Hspec & HS & _).
  assert (Ed : d = decoder_forward (state_dict (decoder m)) y (s_t_1 st0)
                     (fst (fst enc)) (snd (fst enc)) (enc_padding_mask inp)
                     (c_t_1 st0) (extra_zeros inp)
                     (enc_batch_extend_vocab inp) (coverage st0) di).
  { unfold decoder_out_at, call_decoder in Hd. fold inp in Hd.
    unfold enc. destruct (encoder_forward _ _ _) as [[eo ef] eh].
    rewrite Hy in Hd. cbn [obind] in Hd. injection Hd as <-. reflexivity. }
  exists y, st0, st1. fold out in Hy. rewrite (Hfed di Hdi). fold out.
  split; [exact Hy|]. split; [exact Hy|].
  split; [rewrite (column_length _ _ _ _ Hy); apply (ws_dec_batch W)|].
  split; [apply (column_nth _ _ _ _ Hy)|].
  split; [exact Hst0|]. split; [exact HS|].
  cbv zeta. rewrite <- Ed.
  pose proof Hspec as Hspec'.
  destruct Hspec' as (y' & tg & gp & mk & _ & _ & _ & _ & _ & _ & ->).
  split; [reflexivity|]. split; [reflexivity|].
  exists raw, loss. exact Hspec.
Qed.

(* =============================================================== *)
(** ** From the step losses to the scalar loss *)

Lemma zip_exact_seq (op : R -> R -> R) (g : nat -> R) (l : vec) (s : nat) :
  zip_exact op (map g (seq s (length l))) l =
  Some (map (fun b => op (g b) (nth (b - s) l 0)) (seq s (length l))).
Proof.
  revert s; induction l as [|x l IH]; intros s; cbn.
  - reflexivity.
  - rewrite IH. cbn. rewrite Nat.sub_diag. do 2 f_equal.
    apply map_ext_in. intros b Hb. apply in_seq in Hb.
    replace (b - s)%nat with (S (b - S s)) by lia. reflexivity.
Qed.

Lemma batch_loss_spec (losses : list vec) (dec_lens : vec) (B : nat) :
  losses <> [] ->
  Forall (fun l => length l = B) losses ->
  length dec_lens = B ->
  batch_loss losses dec_lens =
  Some (mean (map (example_avg losses dec_lens) (seq 0 B))).
Proof.
  intros Hne Hall Hlen. unfold batch_loss.
  rewrite (stack1_total _ _ Hne Hall). cbn [obind].
  unfold sum1. rewrite map_map. subst B. unfold div.
  rewrite (zip_exact_seq Rdiv). cbn [obind]. do 2 f_equal.
  apply map_ext. intros b. rewrite Nat.sub_0_r. reflexivity.
Qed.

Lemma decode_loop_zero_grad (m : Model) (batch : Batch) (n : nat) :
  decode_loop (zero_grad m) batch n = decode_loop m batch n.
Proof. reflexivity. Qed.

(** The forward pass returns on a well-shaped batch with at least one
    decode step. *)
Lemma forward_loss_spec (B L V : nat) (m : Model) (batch : Batch) :
  well_shaped B L V batch -> (0 < decode_steps batch)%nat ->
  exists st,
    decode_loop m batch (decode_steps batch) = Some st /\
    forward_loss m batch =
    Some (mean (map (example_avg (step_losses st)
                       (dec_lens_var (get_output_from_batch batch USE_CUDA)))
                    (seq 0 B))).
Proof.
  intros W Hpos.
  destruct (decode_loop_total B L V m batch (decode_steps batch) W)
    as [st [Hst _]]; [lia|].
  exists st. split; [exact Hst|].
  unfold forward_loss. rewrite Hst. cbn [obind].
  destruct (decode_loop_inv _ _ _ _ Hst) as [Hl [_ [Hall _]]].
  apply batch_loss_spec.
  - intros E. rewrite E in Hl. cbn in Hl. lia.
  - destruct (ws_mask W) as [Hm _]. rewrite Hm in Hall. exact Hall.
  - apply (ws_lens W).
Qed.

(** [train_one_batch] returns whenever its forward pass does. *)
Lemma train_one_batch_returns (self : Train) (batch : Batch) (loss : R) :
  forward_loss (model self) batch = Some loss ->
  exists self', train_one_batch self batch = Some (loss, self') /\
    model_dir self' = model_dir self /\
    batches_drawn self' = batches_drawn self.
Proof.
  intros H. unfold train_one_batch.
  change (forward_loss (zero_grad (model self)) batch)
    with (forward_loss (model self) batch).
  rewrite H. cbn [obind].
  destruct (clip_gradients _) as [n m2].
  destruct (optimizer_step _ _) as [opt' m3].
  eexists; split; [reflexivity|]. cbn. auto.
Qed.

(** C1.  On a well-shaped batch with at least one decode step,
    [train_one_batch] returns the mean over the examples [b] of the
    batch of (sum over the decode steps of the masked step loss of [b])
    divided by [dec_lens_var[b]]; for an example whose target length
    equals the number of decode steps, that quotient is the unweighted
    mean of its step losses. *)
Theorem train_one_batch_loss (B L V : nat) (self : Train) (batch : Batch) :
  well_shaped B L V batch ->
  (0 < decode_steps batch)%nat ->
  let dec_lens := dec_lens_var (get_output_from_batch batch USE_CUDA) in
  exists st loss self',
    decode_loop (model self) batch (decode_steps batch) = Some st /\
    train_one_batch self batch = Some (loss, self') /\
    loss = mean (map (fun b => example_total (step_losses st) b
                               / nth b dec_lens 0)
                     (seq 0 B)) /\
    forall b,
      nth b dec_lens 0 = INR (decode_steps batch) ->
      example_total (step_losses st) b / nth b dec_lens 0 =
      mean (map (fun l => nth b l 0) (step_losses st)).
Proof.
  intros W Hpos dec_lens.
  destruct (forward_loss_spec B L V (model self) batch W Hpos)
    as [st [Hst Hf]].
  destruct (train_one_batch_returns self batch _ Hf) as [self' [Ht _]].
  exists st. eexists. exists self'.
  split; [exact Hst|]. split; [exact Ht|]. split; [reflexivity|].
  intros b Hb. rewrite Hb. unfold mean, example_total.
  rewrite length_map.
  destruct (decode_loop_inv _ _ _ _ Hst) as [Hl _].
  do 2 f_equal. symmetry. exact Hl.
Qed.

(* =============================================================== *)
(** ** Gradient clipping *)











(* =============================================================== *)
(** ** Checkpoints: save_model and setup_train *)

Lemma torch_load_save (state : Checkpoint) (path : string) (files : FS) :
  torch_load (torch_save state path files) path = Some state.
Proof. cbn. now rewrite String.eqb_refl. Qed.

Lemma fresh_optimizer_accumulator (m : Model) :
  Forall (fun a => a = adagrad_init_acc config)
         (accumulator (fresh_optimizer m)).
Proof.
  unfold fresh_optimizer, AdagradCustom. cbn.
  apply Forall_forall. intros a Ha. apply in_map_iff in Ha.
  now destruct Ha as [_ [<- _]].
Qed.

(** C4 (as the code has it).  [setup_train] loads the optimizer state
    of the checkpoint exactly when a checkpoint path is given and
    [config.is_coverage] is off.  In every other case -- a fresh run,
    or a run resumed with coverage on -- the optimizer is the newly
    constructed one, whose accumulators all hold
    [config.adagrad_init_acc]. *)
Theorem setup_train_optimizer (self : Train) (files : FS)
    (model_file_path : option string) (m : Model) :
  Model_new files model_file_path = Ok m ->
  (forall p, model_file_path = Some p ->
             exists state, torch_load files p = Some state) ->
  exists self' start_iter start_loss,
    setup_train self files model_file_path
      = Ok (self', start_iter, start_loss) /\
    model self' = m /\
    (forall p, model_file_path = Some p -> is_coverage config = false ->
       exists state, torch_load files p = Some state /\
                     optimizer self' = ck_optimizer state) /\
    (model_file_path = None \/ is_coverage config = true ->
       optimizer self' = fresh_optimizer m /\
       Forall (fun a => a = adagrad_init_acc config)
              (accumulator (optimizer self'))).
Proof.
  intros Hm Hfile. unfold setup_train. rewrite Hm.
  pose proof (fresh_optimizer_accumulator m) as Hacc.
  unfold fresh_optimizer in *.
  destruct model_file_path as [p|].
  - destruct (Hfile p eq_refl) as [state Hs]. rewrite Hs.
    destruct (is_coverage config) eqn:Hcov; cbn [negb].
    + do 3 eexists. split; [reflexivity|]. cbn. split; [reflexivity|].
      split; [discriminate|]. intros _. split; [reflexivity|].
      exact Hacc.
    + do 3 eexists. split; [reflexivity|]. cbn. split; [reflexivity|].
      split.
      * intros p' Hp' _. injection Hp' as <-. exists state.
        split; [exact Hs|]. unfold cuda. now destruct USE_CUDA.
      * intros [H|H]; discriminate.
  - do 3 eexists. split; [reflexivity|]. cbn. split; [reflexivity|].
    split; [discriminate|]. intros _. split; [reflexivity|].
    exact Hacc.
Qed.

(** What [setup_train] returns for a checkpoint it can read. *)
Lemma setup_train_resume (self : Train) (files : FS) (p : string)
    (m : Model) (state : Checkpoint) :
  Model_new files (Some p) = Ok m ->
  torch_load files p = Some state ->
  exists self',
    setup_train self files (Some p)
      = Ok (self', ck_iter state, current_loss state) /\
    model self' = m /\
    model_dir self' = model_dir self /\
    batches_drawn self' = batches_drawn self /\
    optimizer self' = if is_coverage config then fresh_optimizer m
                      else ck_optimizer state.
Proof.
  intros Hm Hs. unfold setup_train, fresh_optimizer. rewrite Hm, Hs.
  destruct (is_coverage config); cbn [negb];
    eexists; (split; [reflexivity|]); cbn; repeat split.
  unfold cuda. now destruct USE_CUDA.
Qed.

(** C6.  After [save_model], [torch.load] of the returned path yields
    the record with the iteration, the three state dicts, the optimizer
    state and the running loss that were saved; and [setup_train] on
    that path resumes at that iteration and running loss (with that
    optimizer state when coverage is off). *)
Theorem checkpoint_round_trip (self : Train) (files : FS)
    (running_avg_loss : R) (iter : nat) :
  let saved := save_model self files running_avg_loss iter in
  torch_load (snd saved) (fst saved) =
    Some {| ck_iter := iter;
            encoder_state_dict := state_dict (encoder (model self));
            decoder_state_dict := state_dict (decoder (model self));
            reduce_state_dict := state_dict (reduce_state (model self));
            ck_optimizer := optimizer self;
            current_loss := running_avg_loss |} /\
  forall (self0 : Train) (m : Model),
    Model_new (snd saved) (Some (fst saved)) = Ok m ->
    exists self',
      setup_train self0 (snd saved) (Some (fst saved))
        = Ok (self', iter, running_avg_loss) /\
      model self' = m /\
      (is_coverage config = false -> optimizer self' = optimizer self).
Proof.
  intros saved.
  assert (Hload : torch_load (snd saved) (fst saved)
                  = Some (checkpoint_of self running_avg_loss iter)).
  { unfold saved, save_model. cbn [fst snd]. apply torch_load_save. }
  split; [exact Hload|].
  intros self0 m Hm.
  destruct (setup_train_resume self0 _ _ _ _ Hm Hload)
    as (self' & Hs & Hmod & _ & _ & Hopt).
  exists self'. split; [exact Hs|]. split; [exact Hmod|].
  intros Hcov. rewrite Hopt, Hcov. reflexivity.
Qed.

(* =============================================================== *)
(** ** The training loop *)

Lemma started_app (t1 t2 : list event) :
  started (t1 ++ t2) = started t1 ++ started t2.
Proof.
  induction t1 as [|e t1 IH]; cbn; [reflexivity|].
  destruct e; cbn; now rewrite IH.
Qed.

Lemma trained_app (t1 t2 : list event) :
  trained (t1 ++ t2) = (trained t1 + trained t2)%nat.
Proof.
  induction t1 as [|e t1 IH]; cbn; [reflexivity|].
  destruct e; cbn; now rewrite IH.
Qed.

Lemma saves_count_done_app (done : nat) (t1 t2 : list event) :
  saves_count_done done t1 ->
  saves_count_done (done + trained t1) t2 ->
  saves_count_done done (t1 ++ t2).
Proof.
  revert done; induction t1 as [|e t1 IH]; intros done H1 H2; cbn in *.
  - now rewrite Nat.add_0_r in H2.
  - destruct e; cbn in *; try (apply IH; assumption).
    + apply IH; [assumption|].
      replace (S done + trained t1)%nat with (done + S (trained t1))%nat
        by lia.
      assumption.
    + destruct H1 as [H1 H1']. split; [assumption|]. now apply IH.
Qed.

Lemma trace_emit (e : event) (w : World) :
  trace (emit e w) = trace w ++ [e].
Proof. reflexivity. Qed.

Lemma fs_emit (e : event) (w : World) : fs (emit e w) = fs w.
Proof. reflexivity. Qed.

Lemma fs_if_emit (c : bool) (e : event) (w : World) :
  fs (if c then emit e w else w) = fs w.
Proof. now destruct c. Qed.

Lemma trace_if_emit (c : bool) (e : event) (w : World) :
  trace (if c then emit e w else w) = trace w ++ (if c then [e] else []).
Proof. destruct c; [reflexivity | now rewrite app_nil_r]. Qed.

Lemma train_one_batch_frame (self : Train) (batch : Batch) loss self' :
  train_one_batch self batch = Some (loss, self') ->
  model_dir self' = model_dir self /\
  batches_drawn self' = batches_drawn self.
Proof.
  unfold train_one_batch. intros H.
  destruct (forward_loss _ _) as [l|]; [|discriminate]. cbn [obind] in H.
  destruct (clip_gradients _) as [n m2].
  destruct (optimizer_step _ _) as [opt' m3]. inv H. cbn. auto.
Qed.

Lemma checkpoint_events_facts evaluate self files running iter :
  started (checkpoint_events evaluate self files running iter) = [] /\
  trained (checkpoint_events evaluate self files running iter) = 0%nat /\
  saves_count_done iter
    (checkpoint_events evaluate self files running iter).
Proof.
  unfold checkpoint_events.
  destruct (iter mod 5000 =? 0)%nat; [|cbn; auto].
  destruct evaluate; cbn; auto.
Qed.

Lemma checkpoint_and_evaluate_ok evaluate self w running iter :
  (evaluate = true ->
   forall files path, exists files',
     beam_search_decode files path = Ok files') ->
  exists w',
    checkpoint_and_evaluate evaluate self w running iter = Ok w' /\
    trace w' = trace w ++ checkpoint_events evaluate self (fs w) running iter.
Proof.
  intros Hev. unfold checkpoint_and_evaluate, checkpoint_events.
  destruct (iter mod 5000 =? 0)%nat.
  - unfold save_model. cbn [fst snd fs trace emit].
    destruct evaluate.
    + match goal with
      | |- context [beam_search_decode ?f ?p] =>
          destruct (Hev eq_refl f p) as [files' ->]
      end.
      eexists; split; [reflexivity|]. cbn [fs trace emit].
      rewrite <- !app_assoc. reflexivity.
    + eexists; split; [reflexivity|]. cbn [fs trace emit].
      rewrite <- !app_assoc. reflexivity.
  - exists w. split; [reflexivity|]. now rewrite app_nil_r.
Qed.

Lemma iteration_events_facts evaluate v loss self' :
  started (iteration_events evaluate v loss self') = [(lv_iter v + 1)%nat] /\
  trained (iteration_events evaluate v loss self') = 1%nat /\
  saves_count_done (lv_iter v) (iteration_events evaluate v loss self').
Proof.
  unfold iteration_events.
  destruct (checkpoint_events_facts evaluate self' (fs (lv_world v))
              (calc_running_avg_loss loss (lv_running_avg_loss v) (lv_iter v))
              (S (lv_iter v))) as [Hs [Ht Hc]].
  generalize (S (lv_iter v) mod 100 =? 0)%nat as c1.
  generalize (S (lv_iter v) mod 1000 =? 0)%nat as c2.
  intros c2 c1. repeat split.
  - rewrite !started_app, Hs. destruct c1, c2; reflexivity.
  - rewrite !trained_app, Ht. destruct c1, c2; reflexivity.
  - destruct c1, c2; cbn [app saves_count_done];
      (apply saves_count_done_app; [exact Hc | exact I]).
Qed.

(** A round of the [while] loop in which neither the training step
    nor the evaluation raises. *)
Lemma train_iteration_ok evaluate (v : LoopVars) loss self' :
  (evaluate = true ->
   forall files path, exists files',
     beam_search_decode files path = Ok files') ->
  train_one_batch (draw_batch (lv_self v))
                  (batcher (batches_drawn (lv_self v))) = Some (loss, self') ->
  exists v',
    train_iteration evaluate v = Ok v' /\
    lv_self v' = self' /\
    lv_iter v' = S (lv_iter v) /\
    lv_running_avg_loss v' =
      calc_running_avg_loss loss (lv_running_avg_loss v) (lv_iter v) /\
    trace (lv_world v') =
      trace (lv_world v) ++ iteration_events evaluate v loss self'.
Proof.
  intros Hev Ht. unfold train_iteration. rewrite Ht.
  match goal with
  | |- context [checkpoint_and_evaluate evaluate self' ?w3 ?r ?i] =>
      destruct (checkpoint_and_evaluate_ok evaluate self' w3 r i Hev)
        as [w4 [Hc Htr]]
  end.
  rewrite Hc. eexists. split; [reflexivity|].
  cbn [lv_self lv_iter lv_running_avg_loss lv_world].
  repeat split.
  rewrite !trace_emit, Htr, !fs_if_emit, !fs_emit, !trace_if_emit,
    !trace_emit.
  unfold iteration_events. rewrite <- !app_assoc. reflexivity.
Qed.

Lemma train_loop_S fuel n_iters evaluate v :
  train_loop (S fuel) n_iters evaluate v =
  if (lv_iter v <? n_iters)%nat then
    match train_iteration evaluate v with
    | Raise e => Raise e
    | Ok v' => train_loop fuel n_iters evaluate v'
    end
  else Ok v.
Proof. reflexivity. Qed.

(** [train_one_batch] returns on every well-shaped batch with at least
    one decode step. *)
Lemma train_one_batch_total (B L V : nat) (self : Train) (batch : Batch) :
  well_shaped B L V batch -> (0 < decode_steps batch)%nat ->
  exists loss self',
    train_one_batch self batch = Some (loss, self') /\
    model_dir self' = model_dir self /\
    batches_drawn self' = batches_drawn self.
Proof.
  intros W Hpos.
  destruct (forward_loss_spec B L V (model self) batch W Hpos)
    as [st [_ Hf]].
  destruct (train_one_batch_returns self batch _ Hf) as [self' H].
  eauto.
Qed.

(** The [while] loop, when no round raises: the fuel [n_iters - iter]
    is enough, and the loop runs the rounds [iter, ..., n_iters - 1],
    once each. *)
Lemma train_loop_fuel (n_iters : nat) (evaluate : bool) :
  (forall k self1, exists loss self',
     train_one_batch self1 (batcher k) = Some (loss, self')) ->
  (evaluate = true ->
   forall files path, exists files',
     beam_search_decode files path = Ok files') ->
  forall fuel v, (n_iters - lv_iter v <= fuel)%nat ->
  exists v' evs,
    train_loop fuel n_iters evaluate v = Ok v' /\
    lv_iter v' = Nat.max (lv_iter v) n_iters /\
    trace (lv_world v') = trace (lv_world v) ++ evs /\
    started evs = seq (lv_iter v + 1) (n_iters - lv_iter v) /\
    trained evs = (n_iters - lv_iter v)%nat /\
    saves_count_done (lv_iter v) evs /\
    batches_drawn (lv_self v') =
      (batches_drawn (lv_self v) + (n_iters - lv_iter v))%nat.
Proof.
  intros Hstep Hev. induction fuel as [|fuel IH]; intros v Hfuel.
  - exists v, []. cbn [train_loop].
    destruct (Nat.ltb_spec (lv_iter v) n_iters) as [Hlt|Hge]; [lia|].
    replace (n_iters - lv_iter v)%nat with 0%nat by lia.
    rewrite app_nil_r, Nat.add_0_r. cbn. repeat split; auto; lia.
  - rewrite train_loop_S.
    destruct (Nat.ltb_spec (lv_iter v) n_iters) as [Hlt|Hge].
    + destruct (Hstep (batches_drawn (lv_self v)) (draw_batch (lv_self v)))
        as (loss & self' & Ht).
      destruct (train_one_batch_frame _ _ _ _ Ht) as [_ Hdrawn].
      destruct (train_iteration_ok evaluate v loss self' Hev Ht)
        as (v1 & Hit & Hself & Hiter & _ & Htr).
      rewrite Hit.
      destruct (IH v1) as (v' & evs & Hloop & Hi & Htr' & Hs & Hn & Hc & Hb);
        [lia|].
      destruct (iteration_events_facts evaluate v loss self')
        as (Es & En & Ec).
      exists v', (iteration_events evaluate v loss self' ++ evs).
      rewrite Hiter in *. rewrite Hself in Hb.
      split; [exact Hloop|]. split; [lia|].
      split; [rewrite Htr', Htr, app_assoc; reflexivity|].
      split.
      { rewrite started_app, Es, Hs.
        replace (n_iters - lv_iter v)%nat with (S (n_iters - S (lv_iter v)))
          by lia.
        cbn [seq app]. do 2 f_equal; lia. }
      split; [rewrite trained_app, En, Hn; lia|].
      split.
      { apply saves_count_done_app; [exact Ec|].
        rewrite En. replace (lv_iter v + 1)%nat with (S (lv_iter v)) by lia.
        exact Hc. }
      rewrite Hb, Hdrawn. cbn [draw_batch batches_drawn]. lia.
    + exists v, [].
      replace (n_iters - lv_iter v)%nat with 0%nat by lia.
      rewrite app_nil_r, Nat.add_0_r. cbn. repeat split; auto; lia.
Qed.

(* =============================================================== *)
(** ** The evaluation call *)

(** A round that reaches the evaluation call: what the round returns
    is decided by what [BeamSearch(model_path).decode()] returns. *)
Lemma train_iteration_eval (v : LoopVars) loss self' :
  (S (lv_iter v) mod 5000 = 0)%nat ->
  train_one_batch (draw_batch (lv_self v))
                  (batcher (batches_drawn (lv_self v))) = Some (loss, self') ->
  let running :=
    calc_running_avg_loss loss (lv_running_avg_loss v) (lv_iter v) in
  let saved := save_model self' (fs (lv_world v)) running (S (lv_iter v)) in
  match beam_search_decode (snd saved) (fst saved) with
  | Raise e => train_iteration true v = Raise e
  | Ok files' =>
      exists v',
        train_iteration true v = Ok v' /\
        lv_self v' = self' /\
        lv_iter v' = S (lv_iter v) /\
        lv_running_avg_loss v' = running /\
        fs (lv_world v') = files'
  end.
Proof.
  intros Hmod Ht running saved.
  unfold train_iteration. rewrite Ht. fold running.
  unfold checkpoint_and_evaluate.
  apply Nat.eqb_eq in Hmod. rewrite Hmod.
  unfold saved, save_model. cbn [fst snd].
  destruct (S (lv_iter v) mod 100 =? 0)%nat,
           (S (lv_iter v) mod 1000 =? 0)%nat;
    cbn [fs trace emit];
    (destruct (beam_search_decode _ _) as [files'|e];
     [eexists; split; [reflexivity|]; cbn; auto | reflexivity]).
Qed.

(** A round that writes no checkpoint does not reach the evaluation. *)
Lemma train_iteration_plain evaluate (v : LoopVars) loss self' :
  (S (lv_iter v) mod 5000 <> 0)%nat ->
  train_one_batch (draw_batch (lv_self v))
                  (batcher (batches_drawn (lv_self v))) = Some (loss, self') ->
  exists v',
    train_iteration evaluate v = Ok v' /\ lv_iter v' = S (lv_iter v).
Proof.
  intros Hmod Ht. unfold train_iteration. rewrite Ht.
  unfold checkpoint_and_evaluate.
  apply Nat.eqb_neq in Hmod. rewrite Hmod.
  eexists; split; reflexivity.
Qed.

(** With an evaluator that raises [e], a run with evaluation enabled
    ends with [e] at the first multiple of 5000 it reaches. *)
Lemma train_loop_eval_abort (B L V : nat) (n_iters : nat) (e : exn)
    (q : nat) :
  (forall k, well_shaped B L V (batcher k)) ->
  (forall k, (0 < decode_steps (batcher k))%nat) ->
  (forall files path, beam_search_decode files path = Raise e) ->
  (5000 * q <= n_iters)%nat ->
  forall d v fuel,
    (lv_iter v + S d = 5000 * q)%nat -> (d < fuel)%nat ->
    train_loop fuel n_iters true v = Raise e.
Proof.
  intros HW Hpos Hev Hq. induction d as [|d IH]; intros v fuel Hd Hfuel;
    (destruct fuel as [|fuel]; [lia|]); rewrite train_loop_S;
    (destruct (Nat.ltb_spec (lv_iter v) n_iters) as [Hlt|Hge]; [|lia]);
    destruct (train_one_batch_total B L V (draw_batch (lv_self v))
                (batcher (batches_drawn (lv_self v))) (HW _) (Hpos _))
      as (loss & self' & Ht & _).
  - assert (Hmod : (S (lv_iter v) mod 5000 = 0)%nat).
    { replace (S (lv_iter v)) with (q * 5000)%nat by lia.
      apply Nat.Div0.mod_mul. }
    pose proof (train_iteration_eval v loss self' Hmod Ht) as H.
    cbv zeta in H. rewrite Hev in H. rewrite H. reflexivity.
  - destruct (Nat.eq_dec (S (lv_iter v) mod 5000) 0) as [Hmod|Hmod].
    + pose proof (train_iteration_eval v loss self' Hmod Ht) as H.
      cbv zeta in H. rewrite Hev in H. rewrite H. reflexivity.
    + destruct (train_iteration_plain true v loss self' Hmod Ht)
        as (v1 & Hit & Hiter).
      rewrite Hit. apply IH; [rewrite Hiter; lia | lia].
Qed.

(** C7 (as the code has it).  The evaluation call is not guarded.  In
    a round that writes a checkpoint with evaluation enabled, an
    exception raised by [BeamSearch(model_path).decode()] is raised by
    the round and by the whole loop: training stops.  When the
    evaluator returns, the round ends with the [self] that
    [train_one_batch] left, the incremented [iter] and the updated
    running loss, and the loop goes on from there. *)
Theorem evaluation_failure_propagates (v : LoopVars) (n_iters fuel : nat)
    loss self' :
  (lv_iter v < n_iters)%nat ->
  (S (lv_iter v) mod 5000 = 0)%nat ->
  train_one_batch (draw_batch (lv_self v))
                  (batcher (batches_drawn (lv_self v))) = Some (loss, self') ->
  let running :=
    calc_running_avg_loss loss (lv_running_avg_loss v) (lv_iter v) in
  let saved := save_model self' (fs (lv_world v)) running (S (lv_iter v)) in
  match beam_search_decode (snd saved) (fst saved) with
  | Raise e =>
      train_iteration true v = Raise e /\
      train_loop (S fuel) n_iters true v = Raise e
  | Ok files' =>
      exists v',
        train_iteration true v = Ok v' /\
        lv_self v' = self' /\
        lv_iter v' = S (lv_iter v) /\
        lv_running_avg_loss v' = running /\
        fs (lv_world v') = files' /\
        train_loop (S fuel) n_iters true v = train_loop fuel n_iters true v'
  end.
Proof.
  intros Hlt Hmod Ht running saved.
  pose proof (train_iteration_eval v loss self' Hmod Ht) as H.
  cbv zeta in H. fold running in H. fold saved in H.
  rewrite train_loop_S.
  destruct (Nat.ltb_spec (lv_iter v) n_iters) as [_|Hge]; [|lia].
  destruct (beam_search_decode (snd saved) (fst saved)) as [files'|e].
  - destruct H as (v' & Hit & H1 & H2 & H3 & H4).
    exists v'. rewrite Hit. repeat split; auto.
  - rewrite H. split; reflexivity.
Qed.

(** A round that returns has incremented [iter]. *)
Lemma train_iteration_iter evaluate (v v' : LoopVars) :
  train_iteration evaluate v = Ok v' -> lv_iter v' = S (lv_iter v).
Proof.
  unfold train_iteration.
  destruct (train_one_batch _ _) as [[loss self']|]; [|discriminate].
  destruct (checkpoint_and_evaluate _ _ _ _ _) as [w4|e]; [|discriminate].
  intros H. injection H as <-. reflexivity.
Qed.

(** A round raises only what a tensor operation or the evaluator raises. *)
Lemma train_iteration_raise evaluate (v : LoopVars) (e : exn) :
  train_iteration evaluate v = Raise e ->
  e = TensorError \/
  exists files path, beam_search_decode files path = Raise e.
Proof.
  unfold train_iteration.
  destruct (train_one_batch _ _) as [[loss self']|];
    [|intros H; injection H as <-; now left].
  destruct (checkpoint_and_evaluate _ _ _ _ _) as [w4|e'] eqn:E;
    [discriminate|].
  intros H. injection H as <-. right.
  unfold checkpoint_and_evaluate in E.
  destruct (_ =? 0)%nat; [|discriminate].
  unfold save_model in E. cbn [fst snd] in E.
  destruct evaluate; [|discriminate].
  destruct (beam_search_decode _ _) as [files'|e''] eqn:Eb; [discriminate|].
  injection E as <-. eauto.
Qed.

(** The fuel [n_iters - iter] that [trainIters] gives to the loop never
    runs out, whether or not a round raises. *)
Lemma train_loop_enough_fuel (n_iters : nat) (evaluate : bool) :
  (forall files path, beam_search_decode files path <> Raise OutOfFuel) ->
  forall fuel v, (n_iters - lv_iter v <= fuel)%nat ->
  train_loop fuel n_iters evaluate v <> Raise OutOfFuel.
Proof.
  intros Hev. induction fuel as [|fuel IH]; intros v Hfuel.
  - cbn [train_loop].
    destruct (Nat.ltb_spec (lv_iter v) n_iters) as [Hlt|Hge];
      [lia | discriminate].
  - rewrite train_loop_S.
    destruct (Nat.ltb_spec (lv_iter v) n_iters) as [Hlt|Hge]; [|discriminate].
    destruct (train_iteration evaluate v) as [v'|e] eqn:E.
    + apply IH. rewrite (train_iteration_iter _ _ _ E). lia.
    + intros He. injection He as ->.
      destruct (train_iteration_raise _ _ _ E) as [Ht|(f & p & Hb)];
        [discriminate | now apply (Hev f p)].
Qed.

(* ================================================================= *)
(** ** Checkpoint paths *)

Lemma fmt_d_parse (n : nat) : parse_d (fmt_d n) = Some n.
Proof.
  unfold parse_d, fmt_d.
  destruct (Nat.to_uint n) as [| | | | | | | | | |] eqn:E;
    try (rewrite NilZero.usu by discriminate; cbn [option_map];
         rewrite <- E, DecimalNat.Unsigned.of_to; reflexivity).
  cbn. f_equal. rewrite <- (DecimalNat.Unsigned.of_to n), E. reflexivity.
Qed.

Lemma fmt_d_inj (n m : nat) : fmt_d n = fmt_d m -> n = m.
Proof.
  intros H. pose proof (fmt_d_parse n) as Hn. rewrite H, fmt_d_parse in Hn.
  now injection Hn.
Qed.

Lemma digits_avoid (c : ascii) (d : Decimal.uint) :
  avoids c "0123456789" = true ->
  avoids c (NilEmpty.string_of_uint d) = true.
Proof.
  intros Hc. cbn in Hc.
  repeat (apply andb_prop in Hc; destruct Hc as [? Hc]).
  induction d; cbn; rewrite ?IHd; auto; apply andb_true_intro; auto.
Qed.

Lemma fmt_d_avoids (c : ascii) (n : nat) :
  avoids c "0123456789" = true -> avoids c (fmt_d n) = true.
Proof.
  intros Hc. unfold fmt_d, NilZero.string_of_uint.
  destruct (Nat.to_uint n) eqn:E; try (rewrite <- E at 1);
    try (apply digits_avoid; exact Hc).
  cbn in *. repeat (apply andb_prop in Hc; destruct Hc as [? Hc]).
  apply andb_true_intro; auto.
Qed.

Lemma fmt_d_nonempty (n : nat) : fmt_d n <> ""%string.
Proof.
  intros H. pose proof (fmt_d_parse n) as Hp. rewrite H in Hp. discriminate.
Qed.

Lemma append_cancel_l (a b b' : string) :
  (a ++ b = a ++ b')%string -> b = b'.
Proof.
  induction a as [|c a IH]; cbn; intros H; [exact H|].
  injection H as H. now apply IH.
Qed.

Lemma append_assoc (a b c : string) :
  ((a ++ b) ++ c = a ++ (b ++ c))%string.
Proof.
  induction a as [|x a IH]; cbn; [reflexivity | now rewrite IH].
Qed.

(** Two strings cut at a separator that neither left part contains. *)
Lemma append_sep_inj (c : ascii) (a a' b b' : string) :
  avoids c a = true -> avoids c a' = true ->
  (a ++ String c b = a' ++ String c b')%string -> a = a' /\ b = b'.
Proof.
  revert a'; induction a as [|x a IH]; intros [|x' a'] Ha Ha' H; cbn in *.
  - injection H as H. auto.
  - injection H as Hx _. subst x'.
    rewrite Ascii.eqb_refl in Ha'. discriminate.
  - injection H as Hx _. subst x.
    rewrite Ascii.eqb_refl in Ha. discriminate.
  - injection H as Hx H. subst x'.
    apply andb_prop in Ha. apply andb_prop in Ha'.
    destruct (IH a') as [-> ->]; tauto.
Qed.

Lemma os_path_join_cancel (a b b' : string) :
  os_path_join a b = os_path_join a b' -> b = b'.
Proof.
  unfold os_path_join. destruct (_ || _); intros H.
  - eapply append_cancel_l; eassumption.
  - apply append_cancel_l in H. cbn in H. now injection H.
Qed.

Lemma ends_with_slash_avoids (s : string) :
  avoids "/" s = true -> ends_with_slash s = false.
Proof.
  unfold ends_with_slash.
  assert (H : forall k, avoids "/" s = true ->
                match get k s with
                | Some c => Ascii.eqb c "/"
                | None => false
                end = false).
  { induction s as [|x s IH]; intros k Hs; cbn in *.
    - reflexivity.
    - apply andb_prop in Hs. destruct Hs as [Hx Hs].
      destruct k as [|k]; [now apply negb_true_iff in Hx | now apply IH]. }
  apply H.
Qed.

Lemma ends_with_slash_app (a b : string) :
  b <> ""%string -> ends_with_slash (a ++ b) = ends_with_slash b.
Proof.
  intros Hb. unfold ends_with_slash.
  assert (Hl : forall s t, String.length (s ++ t)
                           = (String.length s + String.length t)%nat).
  { intros s t. induction s as [|x s IH]; cbn; [reflexivity | now rewrite IH]. }
  rewrite Hl.
  destruct b as [|x b]; [congruence|]. cbn [String.length].
  replace (String.length a + S (String.length b) - 1)%nat
    with (String.length b + String.length a)%nat by lia.
  rewrite <- append_correct2.
  replace (S (String.length b) - 1)%nat with (String.length b) by lia.
  reflexivity.
Qed.

Lemma os_path_join_plain (a b : string) :
  a <> ""%string -> ends_with_slash a = false ->
  os_path_join a b = (a ++ "/" ++ b)%string.
Proof.
  intros Ha Hs. unfold os_path_join. rewrite Hs.
  apply String.eqb_neq in Ha. now rewrite Ha.
Qed.

(** The path [save_model] returns. *)
Lemma save_model_path (self : Train) (files : FS) (l : R) (iter : nat) :
  fst (save_model self files l iter) =
  os_path_join (model_dir self)
    ("model_" ++ fmt_d iter ++ "_" ++ fmt_d (time_at iter))%string.
Proof. reflexivity. Qed.

Lemma checkpoint_name_inj (i t i' t' : nat) :
  ("model_" ++ fmt_d i ++ "_" ++ fmt_d t
   = "model_" ++ fmt_d i' ++ "_" ++ fmt_d t')%string ->
  i = i' /\ t = t'.
Proof.
  intros H. apply (append_cancel_l "model_") in H.
  apply append_sep_inj in H; try (apply fmt_d_avoids; reflexivity).
  destruct H as [Hi Ht]. split; apply fmt_d_inj; assumption.
Qed.

(** X1.  Checkpoints of different iterations of one checkpoint directory
    have different paths, whatever the clock says. *)
Theorem save_model_path_inj (self self' : Train) (files files' : FS)
    (l l' : R) (iter iter' : nat) :
  model_dir self = model_dir self' ->
  iter <> iter' ->
  fst (save_model self files l iter) <> fst (save_model self' files' l' iter').
Proof.
  intros Hd Hne H. rewrite !save_model_path, Hd in H.
  apply os_path_join_cancel, checkpoint_name_inj in H.
  destruct H as [Hi _]. exact (Hne Hi).
Qed.

(** X2.  For a [Train] whose [model_dir] was computed by [__init__], the
    checkpoint of iteration [iter] is written to
    [<train_dir>/model/model_<iter>_<timestamp>]. *)
Theorem save_model_path_layout (self : Train) (files : FS) (l : R)
    (iter : nat) (log_root : string) (now : nat) :
  model_dir self = init_model_dir log_root now ->
  fst (save_model self files l iter) =
  (init_train_dir log_root now ++ "/model/model_" ++ fmt_d iter ++ "_"
   ++ fmt_d (time_at iter))%string.
Proof.
  intros Hd. rewrite save_model_path, Hd. unfold init_model_dir.
  assert (Hne : init_train_dir log_root now <> ""%string).
  { unfold init_train_dir, os_path_join.
    destruct (_ || _); destruct log_root; cbn; discriminate. }
  assert (Hs : ends_with_slash (init_train_dir log_root now) = false).
  { unfold init_train_dir, os_path_join.
    destruct (_ || _);
      [| rewrite <- (append_assoc log_root "/" ("train_" ++ fmt_d now))];
      rewrite ends_with_slash_app by (cbn; discriminate);
      apply ends_with_slash_avoids; cbn;
      apply fmt_d_avoids; reflexivity. }
  rewrite (os_path_join_plain _ "model" Hne Hs).
  rewrite os_path_join_plain.
  - rewrite !append_assoc. reflexivity.
  - destruct (init_train_dir log_root now); cbn; discriminate.
  - rewrite ends_with_slash_app by (cbn; discriminate). reflexivity.
Qed.

(* ================================================================= *)
(** ** Errors and edge cases of setup_train and train_one_batch *)

(** [setup_train] on a path under which there is no checkpoint. *)
Lemma setup_train_missing_file (self : Train) (files : FS) (p : string) :
  torch_load files p = None ->
  exists e,
    setup_train self files (Some p) = Raise e /\
    (e = LoadError \/ Model_new files (Some p) = Raise e).
Proof.
  intros Hf. unfold setup_train.
  destruct (Model_new files (Some p)) as [m|e].
  - rewrite Hf. exists LoadError. auto.
  - exists e. auto.
Qed.

(** X3.  Resuming from a path under which there is no checkpoint raises
    before any training step: [trainIters] ends with the exception of the
    [Model] constructor, or with [torch.load]'s. *)
Theorem trainIters_missing_checkpoint (self : Train) (w : World)
    (n_iters : nat) (p : string) (evaluate : bool) :
  torch_load (fs w) p = None ->
  exists e,
    trainIters self w n_iters (Some p) evaluate = Raise e /\
    (e = LoadError \/ Model_new (fs w) (Some p) = Raise e).
Proof.
  intros Hf. destruct (setup_train_missing_file self (fs w) p Hf)
    as (e & Hs & He).
  exists e. split; [|exact He]. unfold trainIters. now rewrite Hs.
Qed.

(** X4.  The learning rate the optimizer holds after [setup_train]:
    [config.lr_coverage] with coverage on; otherwise [config.lr] on a
    fresh run and the learning rate stored in the checkpoint on a resumed
    one. *)
Theorem setup_train_learning_rate (self : Train) (files : FS)
    (model_file_path : option string) self' start_iter start_loss :
  setup_train self files model_file_path
    = Ok (self', start_iter, start_loss) ->
  opt_lr (optimizer self') =
    if is_coverage config then lr_coverage config
    else match model_file_path with
         | None => lr config
         | Some p =>
             match torch_load files p with
             | Some state => opt_lr (ck_optimizer state)
             | None => lr config
             end
         end.
Proof.
  unfold setup_train.
  destruct (Model_new files model_file_path) as [m|e]; [|discriminate].
  destruct model_file_path as [p|].
  - destruct (torch_load files p) as [state|]; [|discriminate].
    destruct (is_coverage config); cbn [negb]; intros H; injection H as <- _ _;
      cbn; [reflexivity|]. unfold cuda. now destruct USE_CUDA.
  - intros H. injection H as <- _ _. cbn. reflexivity.
Qed.

(** X5.  With no decode step ([max_dec_len] or [config.max_dec_steps] is 0)
    the list of step losses is empty, [torch.stack] raises and so does
    [train_one_batch]. *)
Theorem train_one_batch_no_steps (self : Train) (batch : Batch) :
  decode_steps batch = 0%nat -> train_one_batch self batch = None.
Proof.
  intros H0. unfold train_one_batch, forward_loss. rewrite H0.
  destruct (decode_loop_0 (zero_grad (model self)) batch)
    as (st & -> & _ & Hl & _).
  cbn [obind]. rewrite Hl. reflexivity.
Qed.

Lemma decode_loop_round (m : Model) (batch : Batch) (n di : nat) st :
  decode_loop m batch n = Some st -> (di < n)%nat ->
  exists st0 st1,
    decode_loop m batch di = Some st0 /\
    decode_round m batch st0 di = Some st1.
Proof.
  intros Hn Hdi.
  destruct (decode_loop_prefix _ _ _ _ Hn (S di)) as (st1 & H1 & _); [lia|].
  rewrite decode_loop_S in H1.
  destruct (decode_loop m batch di) as [st0|]; [|discriminate].
  cbn [obind] in H1. eauto.
Qed.

(** X6.  A gold id beyond the width of the decoder's output distribution
    makes [torch.gather], and with it [train_one_batch], raise. *)
Theorem train_one_batch_gold_out_of_range (V : nat) (self : Train)
    (batch : Batch) (b di gold : nat) :
  (forall w y s eo ef pm c ez ev cov k,
     Forall (fun row => (length row <= V)%nat)
            (final_dist (decoder_forward w y s eo ef pm c ez ev cov k))) ->
  (di < decode_steps batch)%nat ->
  entry (target_batch (get_output_from_batch batch USE_CUDA)) b di
    = Some gold ->
  (V <= gold)%nat ->
  train_one_batch self batch = None.
Proof.
  intros Hw Hdi Hgold Hv. unfold train_one_batch, forward_loss.
  destruct (decode_loop (zero_grad (model self)) batch (decode_steps batch))
    as [st|] eqn:Hst; [|reflexivity].
  exfalso.
  destruct (decode_loop_round _ _ _ _ _ Hst Hdi) as (st0 & st1 & _ & Hr).
  destruct (decode_round_inv _ _ _ _ _ Hr) as (d & raw & loss & Hd & Hspec).
  destruct Hspec as (y & target & gp & mk & _ & Ht & Hg & _).
  rewrite <- (column_nth _ _ _ _ Ht) in Hgold.
  pose proof (gather1_nth _ _ _ Hg _ _ Hgold) as Hp.
  assert (Hsome : nth_error gp b <> None).
  { apply nth_error_Some. rewrite (gather1_length _ _ _ Hg).
    apply nth_error_Some. congruence. }
  apply Hsome. rewrite Hp. unfold entry.
  destruct (nth_error (final_dist d) b) as [row|] eqn:Erow; [|reflexivity].
  cbn [obind]. apply nth_error_None.
  unfold decoder_out_at, call_decoder in Hd.
  destruct (encoder_forward _ _ _) as [[eo ef] eh].
  destruct (column _ _) as [y'|]; [|discriminate]. cbn in Hd.
  injection Hd as <-.
  apply nth_error_In in Erow.
  pose proof (proj1 (Forall_forall _ _) (Hw _ _ _ _ _ _ _ _ _ _ _) _ Erow)
    as Hrow.
  cbn in Hrow. lia.
Qed.

(* ================================================================= *)
(** ** The sign of the loss *)

Lemma step_coverage_loss_entries_nonneg (attn cov : mat) (scl : vec) :
  step_coverage_loss attn (Some cov) = Some scl ->
  nonneg attn -> nonneg cov -> Forall (fun x => 0 <= x) scl.
Proof.
  intros Hs Na Nc. apply Forall_forall. intros x Hx.
  apply In_nth_error in Hx. destruct Hx as [b Hb].
  destruct (step_coverage_loss_rows _ _ _ Hs) as [La Lc].
  assert (Hlt : (b < length scl)%nat) by (apply nth_error_Some; congruence).
  destruct (nth_error_ex _ attn b) as [ra Era]; [lia|].
  destruct (nth_error_ex _ cov b) as [rc Erc]; [lia|].
  rewrite (step_coverage_loss_nth _ _ _ Hs _ _ _ Era Erc) in Hb.
  injection Hb as <-. apply row_min_sum_nonneg.
  - unfold nonneg in Na. rewrite Forall_forall in Na. apply Na.
    eapply nth_error_In; eassumption.
  - unfold nonneg in Nc. rewrite Forall_forall in Nc. apply Nc.
    eapply nth_error_In; eassumption.
Qed.

Lemma entry_Forall (A : Type) (P : A -> Prop) (t : list (list A)) b j x :
  Forall (Forall P) t -> entry t b j = Some x -> P x.
Proof.
  intros Ht He. unfold entry in He.
  destruct (nth_error t b) as [row|] eqn:Er; [|discriminate]. cbn in He.
  rewrite Forall_forall in Ht. apply nth_error_In in Er.
  specialize (Ht _ Er). rewrite Forall_forall in Ht. apply Ht.
  eapply nth_error_In; eassumption.
Qed.

(** The step loss of a round has no negative entry. *)
Lemma round_loss_nonneg (batch : Batch) st di d raw loss st' :
  round_spec batch st di d raw loss st' ->
  nonneg (dec_padding_mask (get_output_from_batch batch USE_CUDA)) ->
  Forall (Forall (fun p => 0 < p + eps config <= 1)) (final_dist d) ->
  (is_coverage config = true ->
   0 <= cov_loss_wt config /\ nonneg (attn_dist d) /\
   forall c, coverage st = Some c -> nonneg c) ->
  Forall (fun x => 0 <= x) loss.
Proof.
  intros Hspec Hmask Hfinal Hcov.
  pose proof Hspec as Hspec'.
  destruct Hspec' as (y & target & gp & mk & _ & Ht & Hg & Hm & Hraw & Hmul & _).
  apply Forall_forall. intros x Hx.
  apply In_nth_error in Hx. destruct Hx as [b Hb].
  assert (Hbl : (b < length loss)%nat) by (apply nth_error_Some; congruence).
  destruct (zip_exact_length _ _ _ _ _ _ _ Hmul) as [Lraw Lmk].
  assert (Lgp : length gp = length raw).
  { destruct (is_coverage config).
    - destruct Hraw as (scl & _ & Hadd).
      destruct (zip_exact_length _ _ _ _ _ _ _ Hadd) as [L1 _].
      now rewrite length_neg_log_plus in L1.
    - subst raw. now rewrite length_neg_log_plus. }
  destruct (nth_error_ex _ mk b) as [mask Emask]; [lia|].
  destruct (nth_error_ex _ target b) as [gold Egold].
  { rewrite <- (gather1_length _ _ _ Hg). lia. }
  destruct (nth_error_ex _ gp b) as [p Ep]; [lia|].
  pose proof Emask as Emask'. rewrite (column_nth _ _ _ _ Hm) in Emask'.
  pose proof Egold as Egold'. rewrite (column_nth _ _ _ _ Ht) in Egold'.
  pose proof Ep as Ep'. rewrite (gather1_nth _ _ _ Hg _ _ Egold) in Ep'.
  destruct (round_loss_entry _ _ _ _ _ _ _ Hspec _ _ _ _ Emask' Egold' Ep')
    as (r & _ & Hl & Hr).
  rewrite Hl in Hb. injection Hb as <-.
  assert (Hmask0 : 0 <= mask) by (eapply (entry_Forall _ _ _ _ _ _ Hmask); eauto).
  assert (Hp : 0 < p + eps config <= 1)
    by (eapply (entry_Forall _ _ _ _ _ _ Hfinal); eauto).
  assert (Hln : 0 <= - ln (p + eps config)).
  { destruct (Req_dec (p + eps config) 1) as [E1|N1].
    - rewrite E1, ln_1. lra.
    - assert (Hlt : ln (p + eps config) < ln 1)
        by (apply ln_increasing; lra).
      rewrite ln_1 in Hlt. lra. }
  assert (Hr0 : 0 <= r).
  { destruct (is_coverage config) eqn:Ecov.
    - destruct Hr as (scl & s & Hscl & Hs & ->).
      destruct (Hcov eq_refl) as (Hw & Hattn & Hc).
      destruct (coverage st) as [c|] eqn:Ec; [|discriminate].
      pose proof (step_coverage_loss_entries_nonneg _ _ _ Hscl Hattn
                    (Hc c eq_refl)) as Hn.
      rewrite Forall_forall in Hn. apply nth_error_In in Hs.
      specialize (Hn _ Hs). cbn in Hn. nra.
    - subst r. exact Hln. }
  nra.
Qed.

(** Along the decoding loop no step loss is negative and the coverage
    stays non-negative. *)
Lemma decode_loop_nonneg (m : Model) (batch : Batch) (n : nat) st :
  loss_conditions batch ->
  decode_loop m batch n = Some st ->
  Forall (Forall (fun x => 0 <= x)) (step_losses st) /\
  forall c, coverage st = Some c -> nonneg c.
Proof.
  intros C. revert st; induction n as [|n IH]; intros st H.
  - destruct (decode_loop_0 m batch) as (st0 & H0 & Hc & Hl & _).
    rewrite H0 in H. injection H as <-. rewrite Hl, Hc.
    split; [constructor | apply (lc_coverage C)].
  - rewrite decode_loop_S in H.
    destruct (decode_loop m batch n) as [stn|]; [|discriminate].
    cbn [obind] in H. destruct (IH _ eq_refl) as [IHl IHc].
    destruct (decode_round_inv _ _ _ _ _ H) as (d & raw & loss & Hd & Hspec).
    assert (Hdec : exists w y s eo ef pm c ez ev cov k,
               d = decoder_forward w y s eo ef pm c ez ev cov k).
    { unfold decoder_out_at, call_decoder in Hd.
      destruct (encoder_forward _ _ _) as [[eo ef] eh].
      destruct (column _ _) as [y|]; [|discriminate]. cbn in Hd.
      injection Hd as <-. repeat eexists. }
    destruct Hdec as (w0 & y0 & s0 & eo & ef & pm & c0 & ez & ev & cov & k & ->).
    assert (Hloss : Forall (fun x => 0 <= x) loss).
    { eapply round_loss_nonneg; [exact Hspec | apply (lc_mask C)
                                | apply (lc_final C) |].
      intros Ecov. split; [apply (lc_weight C Ecov)|].
      split; [apply (lc_attn C) | exact IHc]. }
    destruct Hspec as (y & tg & gp & mk & _ & _ & _ & _ & _ & _ & ->). cbn.
    split.
    + apply Forall_app. split; [exact IHl|]. constructor; [exact Hloss|].
      constructor.
    + destruct (is_coverage config); [apply (lc_next C) | exact IHc].
Qed.

Lemma mean_nonneg (t : vec) : Forall (fun x => 0 <= x) t -> 0 <= mean t.
Proof.
  intros H. unfold mean. pose proof (sum_nonneg t H) as Hs.
  destruct t as [|x t].
  - unfold sum. cbn. unfold Rdiv. rewrite Rmult_0_l. lra.
  - apply Rmult_le_pos; [exact Hs|].
    apply Rlt_le, Rinv_0_lt_compat, lt_0_INR. cbn. lia.
Qed.

Lemma batch_loss_nonneg (losses : list vec) (dec_lens : vec) (loss : R) :
  batch_loss losses dec_lens = Some loss ->
  Forall (Forall (fun x => 0 <= x)) losses ->
  Forall (fun l => 0 < l) dec_lens ->
  0 <= loss.
Proof.
  unfold batch_loss. intros H Hl Hd.
  destruct (stack1 losses) as [stacked|] eqn:Es; [|discriminate].
  cbn [obind] in H.
  destruct (div (sum1 stacked) dec_lens) as [avg|] eqn:Ed; [|discriminate].
  cbn [obind] in H. injection H as <-. apply mean_nonneg.
  destruct (stack1_inv _ _ Es) as (B & _ & _ & ->).
  rewrite (zip_exact_combine _ _ _ _ _ _ _ Ed).
  apply Forall_forall. intros x Hx. apply in_map_iff in Hx.
  destruct Hx as [[s l] [<- Hin]]. cbn.
  pose proof (in_combine_l _ _ _ _ Hin) as Hs.
  pose proof (in_combine_r _ _ _ _ Hin) as Hlen.
  rewrite Forall_forall in Hd. specialize (Hd _ Hlen). cbn in Hd.
  apply Rmult_le_pos; [|apply Rlt_le, Rinv_0_lt_compat; exact Hd].
  unfold sum1 in Hs. rewrite map_map in Hs. apply in_map_iff in Hs.
  destruct Hs as (b & <- & _). apply sum_nonneg.
  apply Forall_forall. intros y Hy. apply in_map_iff in Hy.
  destruct Hy as (t & <- & Ht).
  rewrite Forall_forall in Hl. specialize (Hl _ Ht). cbn in Hl.
  destruct (nth_in_or_default b t 0) as [Hin' | Hdef]; [|rewrite Hdef; lra].
  rewrite Forall_forall in Hl. now apply Hl.
Qed.

(** X8.  Under [loss_conditions] the loss [train_one_batch] returns is not
    negative. *)
Theorem train_one_batch_loss_nonneg (self : Train) (batch : Batch)
    loss self' :
  loss_conditions batch ->
  train_one_batch self batch = Some (loss, self') ->
  0 <= loss.
Proof.
  intros C H. unfold train_one_batch in H.
  destruct (forward_loss (zero_grad (model self)) batch) as [l|] eqn:Ef;
    [|discriminate].
  cbn [obind] in H. destruct (clip_gradients _) as [n m2].
  destruct (optimizer_step _ _) as [opt' m3]. injection H as <- _.
  unfold forward_loss in Ef.
  destruct (decode_loop _ _ _) as [st|] eqn:Est; [|discriminate].
  cbn [obind] in Ef.
  destruct (decode_loop_nonneg _ _ _ _ C Est) as [Hl _].
  exact (batch_loss_nonneg _ _ _ Ef Hl (lc_lens C)).
Qed.

(* ================================================================= *)
(** ** Runs of trainIters *)

(** X9.  A run that has nothing left to do returns at once: the only thing
    it does is the log line of [trainIters]. *)
Theorem trainIters_nothing_to_do (self : Train) (w : World) (n_iters : nat)
    (model_file_path : option string) (evaluate : bool) self0 N l0 :
  setup_train self (fs w) model_file_path = Ok (self0, N, l0) ->
  (n_iters <= N)%nat ->
  trainIters self w n_iters model_file_path evaluate =
  Ok {| lv_self := self0;
        lv_world := {| fs := fs w;
                       trace := trace w ++ [LogStartingTraining N] |};
        lv_iter := N;
        lv_running_avg_loss := l0 |}.
Proof.
  intros Hs Hn. unfold trainIters. rewrite Hs.
  replace (n_iters - N)%nat with 0%nat by lia. cbn [train_loop lv_iter].
  destruct (Nat.ltb_spec N n_iters); [lia | reflexivity].
Qed.

(** X10.  A training step that raises ends the run: the exception leaves
    [trainIters] from the first round. *)
Theorem trainIters_training_error (self : Train) (w : World) (n_iters : nat)
    (model_file_path : option string) (evaluate : bool) self0 N l0 :
  setup_train self (fs w) model_file_path = Ok (self0, N, l0) ->
  (N < n_iters)%nat ->
  train_one_batch (draw_batch self0) (batcher (batches_drawn self0)) = None ->
  trainIters self w n_iters model_file_path evaluate = Raise TensorError.
Proof.
  intros Hs Hn Ht. unfold trainIters. rewrite Hs.
  destruct (n_iters - N)%nat as [|fuel] eqn:E; [lia|].
  rewrite train_loop_S. cbn [lv_iter].
  destruct (Nat.ltb_spec N n_iters); [|lia].
  unfold train_iteration. cbn [lv_self]. rewrite Ht. reflexivity.
Qed.

Lemma saved_app (t1 t2 : list event) : saved (t1 ++ t2) = saved t1 ++ saved t2.
Proof.
  induction t1 as [|e t1 IH]; cbn; [reflexivity|].
  destruct e; cbn; now rewrite IH.
Qed.

Lemma evaluated_app (t1 t2 : list event) :
  evaluated (t1 ++ t2) = evaluated t1 ++ evaluated t2.
Proof.
  induction t1 as [|e t1 IH]; cbn; [reflexivity|].
  destruct e; cbn; now rewrite IH.
Qed.

Lemma saving_logged_app (t1 t2 : list event) :
  saving_logged (t1 ++ t2) = saving_logged t1 ++ saving_logged t2.
Proof.
  induction t1 as [|e t1 IH]; cbn; [reflexivity|].
  destruct e; cbn; now rewrite IH.
Qed.

Lemma ended_app (t1 t2 : list event) : ended (t1 ++ t2) = ended t1 ++ ended t2.
Proof.
  induction t1 as [|e t1 IH]; cbn; [reflexivity|].
  destruct e; cbn; now rewrite IH.
Qed.

Lemma flushes_app (t1 t2 : list event) :
  flushes (t1 ++ t2) = (flushes t1 + flushes t2)%nat.
Proof.
  induction t1 as [|e t1 IH]; cbn; [reflexivity|].
  destruct e; cbn; now rewrite IH.
Qed.

Lemma steps_logged_app (t1 t2 : list event) :
  steps_logged (t1 ++ t2) = steps_logged t1 ++ steps_logged t2.
Proof.
  induction t1 as [|e t1 IH]; cbn; [reflexivity|].
  destruct e; cbn; now rewrite IH.
Qed.

Lemma multiples_nil (k i : nat) : multiples k i i = [].
Proof. unfold multiples. now rewrite Nat.sub_diag. Qed.

Lemma multiples_app (k i j l : nat) :
  (i <= j)%nat -> (j <= l)%nat ->
  multiples k i j ++ multiples k j l = multiples k i l.
Proof.
  intros Hij Hjl. unfold multiples. rewrite <- filter_app. f_equal.
  replace (l - i)%nat with ((j - i) + (l - j))%nat by lia.
  rewrite seq_app. do 2 f_equal. lia.
Qed.

Lemma multiples_one (k i : nat) :
  multiples k i (S i) = if (S i mod k =? 0)%nat then [S i] else [].
Proof.
  unfold multiples. replace (S i - i)%nat with 1%nat by lia.
  replace (i + 1)%nat with (S i) by lia. reflexivity.
Qed.

Lemma multiples_max (k N n : nat) :
  multiples k N (Nat.max N n) = multiples k N n.
Proof.
  unfold multiples. f_equal. f_equal. lia.
Qed.

Lemma multiples_NoDup (k lo hi : nat) : NoDup (multiples k lo hi).
Proof. unfold multiples. apply NoDup_filter, seq_NoDup. Qed.

Lemma write_all_app (c1 c2 : list (string * Checkpoint)) (files : FS) :
  write_all (c1 ++ c2) files = write_all c2 (write_all c1 files).
Proof. unfold write_all. apply fold_left_app. Qed.

Lemma write_all_equiv (cks : list (string * Checkpoint)) (f1 f2 : FS) :
  (forall p, torch_load f1 p = torch_load f2 p) ->
  forall p, torch_load (write_all cks f1) p = torch_load (write_all cks f2) p.
Proof.
  revert f1 f2; induction cks as [|[q ck] cks IH]; intros f1 f2 H p.
  - apply H.
  - cbn. apply IH. intros p'. cbn. now rewrite H.
Qed.

(** Reading back after several writes to pairwise different paths. *)
Lemma write_all_lookup (cks : list (string * Checkpoint)) (files : FS) :
  NoDup (map fst cks) ->
  (forall p ck, In (p, ck) cks -> torch_load (write_all cks files) p = Some ck)
  /\
  (forall p, ~ In p (map fst cks) ->
             torch_load (write_all cks files) p = torch_load files p).
Proof.
  revert files; induction cks as [|[q ck0] cks IH]; intros files Hnd.
  - split; [intros p ck []|]. reflexivity.
  - inversion Hnd as [|? ? Hq Hnd']; subst.
    destruct (IH (torch_save ck0 q files) Hnd') as [IH1 IH2].
    split.
    + intros p ck [Heq|Hin].
      * injection Heq as <- <-. cbn [write_all fold_left fst snd].
        fold (write_all cks (torch_save ck0 q files)).
        rewrite (IH2 q Hq). apply torch_load_save.
      * apply (IH1 p ck Hin).
    + intros p Hp. cbn [write_all fold_left fst snd].
      fold (write_all cks (torch_save ck0 q files)).
      rewrite IH2 by (intros Hin; apply Hp; right; exact Hin).
      cbn. destruct (String.eqb_spec q p) as [->|Hne]; [|reflexivity].
      exfalso. apply Hp. now left.
Qed.

(** *** One round, read off its events *)

(** What the readers of a trace see in the optional events of a round. *)
Lemma flush_reads (c : bool) :
  saved (if c then [SummaryFlush] else []) = [] /\
  evaluated (if c then [SummaryFlush] else []) = [] /\
  saving_logged (if c then [SummaryFlush] else []) = [] /\
  ended (if c then [SummaryFlush] else []) = [] /\
  started (if c then [SummaryFlush] else []) = [] /\
  steps_logged (if c then [SummaryFlush] else []) = [] /\
  flushes (if c then [SummaryFlush] else []) = (if c then 1 else 0)%nat.
Proof. destruct c; cbn; repeat split; reflexivity. Qed.

Lemma steps_reads (c : bool) (iter : nat) (loss : R) :
  saved (if c then [LogSteps iter loss] else []) = [] /\
  evaluated (if c then [LogSteps iter loss] else []) = [] /\
  saving_logged (if c then [LogSteps iter loss] else []) = [] /\
  ended (if c then [LogSteps iter loss] else []) = [] /\
  started (if c then [LogSteps iter loss] else []) = [] /\
  steps_logged (if c then [LogSteps iter loss] else [])
    = (if c then [iter] else []) /\
  flushes (if c then [LogSteps iter loss] else []) = 0%nat.
Proof. destruct c; cbn; repeat split; reflexivity. Qed.

Lemma checkpoint_reads evaluate self files running iter :
  saved (checkpoint_events evaluate self files running iter) =
    (if (iter mod 5000 =? 0)%nat
     then [(fst (save_model self files running iter),
            checkpoint_of self running iter)]
     else []) /\
  evaluated (checkpoint_events evaluate self files running iter) =
    (if evaluate
     then map fst (saved (checkpoint_events evaluate self files running iter))
     else []) /\
  saving_logged (checkpoint_events evaluate self files running iter) =
    map (fun pc => (ck_iter (snd pc) + 1)%nat)
        (saved (checkpoint_events evaluate self files running iter)) /\
  ended (checkpoint_events evaluate self files running iter) = [] /\
  started (checkpoint_events evaluate self files running iter) = [] /\
  steps_logged (checkpoint_events evaluate self files running iter) = [] /\
  flushes (checkpoint_events evaluate self files running iter) = 0%nat.
Proof.
  unfold checkpoint_events.
  generalize (iter mod 5000 =? 0)%nat. intros c.
  destruct c, evaluate;
    cbn [saved evaluated saving_logged ended started steps_logged flushes
         app map fst snd ck_iter checkpoint_of];
    repeat split; reflexivity.
Qed.

Lemma iteration_events_saved evaluate v loss self' :
  saved (iteration_events evaluate v loss self') =
  if (S (lv_iter v) mod 5000 =? 0)%nat
  then [(fst (save_model self' (fs (lv_world v))
                (calc_running_avg_loss loss (lv_running_avg_loss v) (lv_iter v))
                (S (lv_iter v))),
         checkpoint_of self'
           (calc_running_avg_loss loss (lv_running_avg_loss v) (lv_iter v))
           (S (lv_iter v)))]
  else [].
Proof.
  unfold iteration_events.
  destruct (flush_reads (S (lv_iter v) mod 100 =? 0)%nat) as (F & _).
  destruct (steps_reads (S (lv_iter v) mod 1000 =? 0)%nat (S (lv_iter v)) loss)
    as (S1 & _).
  destruct (checkpoint_reads evaluate self' (fs (lv_world v))
              (calc_running_avg_loss loss (lv_running_avg_loss v) (lv_iter v))
              (S (lv_iter v))) as (C & _).
  rewrite !saved_app, F, S1, C. cbn [saved app]. apply app_nil_r.
Qed.

Lemma iteration_events_evaluated evaluate v loss self' :
  evaluated (iteration_events evaluate v loss self') =
  if evaluate then map fst (saved (iteration_events evaluate v loss self'))
  else [].
Proof.
  unfold iteration_events.
  destruct (flush_reads (S (lv_iter v) mod 100 =? 0)%nat) as (F1 & F2 & _).
  destruct (steps_reads (S (lv_iter v) mod 1000 =? 0)%nat (S (lv_iter v)) loss)
    as (S1 & S2 & _).
  destruct (checkpoint_reads evaluate self' (fs (lv_world v))
              (calc_running_avg_loss loss (lv_running_avg_loss v) (lv_iter v))
              (S (lv_iter v))) as (_ & C2 & _).
  rewrite !saved_app, !evaluated_app, F1, F2, S1, S2, C2.
  cbn [saved evaluated app]. rewrite !app_nil_r.
  destruct evaluate; reflexivity.
Qed.

Lemma iteration_events_logs evaluate v loss self' :
  saving_logged (iteration_events evaluate v loss self') =
    map (fun pc => (ck_iter (snd pc) + 1)%nat)
        (saved (iteration_events evaluate v loss self')) /\
  ended (iteration_events evaluate v loss self') =
    map S (started (iteration_events evaluate v loss self')) /\
  flushes (iteration_events evaluate v loss self') =
    (if (S (lv_iter v) mod 100 =? 0)%nat then 1 else 0)%nat /\
  steps_logged (iteration_events evaluate v loss self') =
    if (S (lv_iter v) mod 1000 =? 0)%nat then [S (lv_iter v)] else [].
Proof.
  unfold iteration_events.
  destruct (flush_reads (S (lv_iter v) mod 100 =? 0)%nat)
    as (F1 & _ & F3 & F4 & F5 & F6 & F7).
  destruct (steps_reads (S (lv_iter v) mod 1000 =? 0)%nat (S (lv_iter v)) loss)
    as (S1 & _ & S3 & S4 & S5 & S6 & S7).
  destruct (checkpoint_reads evaluate self' (fs (lv_world v))
              (calc_running_avg_loss loss (lv_running_avg_loss v) (lv_iter v))
              (S (lv_iter v))) as (_ & _ & C3 & C4 & C5 & C6 & C7).
  split; [|split; [|split]].
  - rewrite !saved_app, !saving_logged_app, F1, F3, S1, S3, C3.
    cbn [saved saving_logged app map]. rewrite !app_nil_r. reflexivity.
  - rewrite !ended_app, !started_app, F4, F5, S4, S5, C4, C5.
    cbn [ended started app map]. rewrite !Nat.add_1_r. reflexivity.
  - rewrite !flushes_app, F7, S7, C7. cbn [flushes]. lia.
  - rewrite !steps_logged_app, F6, S6, C6. cbn [steps_logged app].
    apply app_nil_r.
Qed.

(** The files a checkpoint step that returns leaves. *)
Lemma checkpoint_and_evaluate_files evaluate self (w w4 : World) running iter :
  checkpoint_and_evaluate evaluate self w running iter = Ok w4 ->
  (evaluate = true ->
   forall files path files',
     beam_search_decode files path = Ok files' ->
     forall p, torch_load files' p = torch_load files p) ->
  forall p,
    torch_load (fs w4) p =
    torch_load (write_all
                  (saved (checkpoint_events evaluate self (fs w) running iter))
                  (fs w)) p.
Proof.
  destruct (checkpoint_reads evaluate self (fs w) running iter) as (C & _).
  rewrite C. clear C.
  unfold checkpoint_and_evaluate, save_model. cbn [fst snd].
  generalize (iter mod 5000 =? 0)%nat. intros c. destruct c.
  - destruct evaluate.
    + destruct (beam_search_decode _ _) as [files'|e] eqn:Eb; [|discriminate].
      intros H Hpres p. injection H as <-. cbn [fs emit].
      rewrite (Hpres eq_refl _ _ _ Eb). reflexivity.
    + intros H _ p. injection H as <-. reflexivity.
  - intros H _ p. injection H as <-. reflexivity.
Qed.

(** The state a round that returns leaves. *)
Lemma train_iteration_inv evaluate (v v1 : LoopVars) loss self' :
  train_one_batch (draw_batch (lv_self v))
                  (batcher (batches_drawn (lv_self v))) = Some (loss, self') ->
  train_iteration evaluate v = Ok v1 ->
  lv_self v1 = self' /\
  lv_iter v1 = S (lv_iter v) /\
  ((evaluate = true ->
    forall files path files',
      beam_search_decode files path = Ok files' ->
      forall p, torch_load files' p = torch_load files p) ->
   forall p,
     torch_load (fs (lv_world v1)) p =
     torch_load (write_all (saved (iteration_events evaluate v loss self'))
                           (fs (lv_world v))) p).
Proof.
  intros Ht.
  destruct (flush_reads (S (lv_iter v) mod 100 =? 0)%nat) as (F & _).
  destruct (steps_reads (S (lv_iter v) mod 1000 =? 0)%nat (S (lv_iter v)) loss)
    as (S1 & _).
  unfold train_iteration, iteration_events. rewrite Ht.
  rewrite !saved_app, F, S1. cbn [saved app]. rewrite app_nil_r.
  clear F S1.
  match goal with
  | |- context [checkpoint_and_evaluate evaluate self' ?w3 ?r ?i] =>
      pose proof (checkpoint_and_evaluate_files evaluate self' w3) as Hck;
      specialize (fun w4 => Hck w4 r i);
      destruct (checkpoint_and_evaluate evaluate self' w3 r i) as [w4|e];
      [|discriminate]
  end.
  intros H. injection H as <-. cbn [lv_self lv_iter lv_world fs emit].
  split; [reflexivity|]. split; [reflexivity|].
  intros Hpres p. rewrite (Hck w4 eq_refl Hpres p).
  rewrite !fs_if_emit. reflexivity.
Qed.

Lemma run_facts_nil evaluate (v : LoopVars) : run_facts evaluate v v [].
Proof.
  constructor; cbn; rewrite ?multiples_nil; auto.
  now destruct evaluate.
Qed.

Lemma run_facts_app evaluate (v v1 v' : LoopVars) (t1 t2 : list event) :
  run_facts evaluate v v1 t1 -> run_facts evaluate v1 v' t2 ->
  run_facts evaluate v v' (t1 ++ t2).
Proof.
  intros F1 F2.
  pose proof (rf_iter F1) as H1. pose proof (rf_iter F2) as H2.
  constructor.
  - lia.
  - rewrite (rf_dir F2). apply (rf_dir F1).
  - rewrite saved_app, map_app, (rf_saved_iters F1), (rf_saved_iters F2).
    now apply multiples_app.
  - rewrite saved_app. apply Forall_app. split; [apply (rf_saved_paths F1)|].
    rewrite <- (rf_dir F1). apply (rf_saved_paths F2).
  - rewrite evaluated_app, saved_app, map_app, (rf_evaluated F1),
      (rf_evaluated F2). now destruct evaluate.
  - rewrite saving_logged_app, saved_app, map_app, (rf_saving_logged F1),
      (rf_saving_logged F2). reflexivity.
  - rewrite ended_app, started_app, map_app, (rf_ended F1), (rf_ended F2).
    reflexivity.
  - rewrite flushes_app, (rf_flushes F1), (rf_flushes F2), <- length_app.
    f_equal. now apply multiples_app.
  - rewrite steps_logged_app, (rf_steps F1), (rf_steps F2).
    now apply multiples_app.
  - intros Hpres p. rewrite (rf_files F2 Hpres), saved_app, write_all_app.
    apply write_all_equiv. apply (rf_files F1 Hpres).
Qed.

Lemma round_run_facts evaluate (v v1 : LoopVars) loss self' :
  train_one_batch (draw_batch (lv_self v))
                  (batcher (batches_drawn (lv_self v))) = Some (loss, self') ->
  train_iteration evaluate v = Ok v1 ->
  run_facts evaluate v v1 (iteration_events evaluate v loss self').
Proof.
  intros Ht Hit.
  destruct (train_iteration_inv evaluate v v1 loss self' Ht Hit)
    as (Hself & Hiter & Hfiles).
  destruct (train_one_batch_frame _ _ _ _ Ht) as [Hdir _].
  cbn [draw_batch model_dir] in Hdir.
  destruct (iteration_events_logs evaluate v loss self')
    as (Hsl & Hen & Hfl & Hst).
  constructor.
  - lia.
  - now rewrite Hself.
  - rewrite Hiter, multiples_one, iteration_events_saved.
    generalize (S (lv_iter v) mod 5000 =? 0)%nat. intros c.
    destruct c; reflexivity.
  - rewrite iteration_events_saved.
    generalize (S (lv_iter v) mod 5000 =? 0)%nat. intros c.
    destruct c; constructor; [|constructor].
    cbn [fst snd ck_iter checkpoint_of]. rewrite save_model_path, Hdir.
    reflexivity.
  - apply iteration_events_evaluated.
  - exact Hsl.
  - exact Hen.
  - rewrite Hiter, multiples_one, Hfl.
    generalize (S (lv_iter v) mod 100 =? 0)%nat. intros c.
    destruct c; reflexivity.
  - rewrite Hiter, multiples_one, Hst. reflexivity.
  - exact Hfiles.
Qed.

(** *** The whole loop *)

Lemma train_loop_facts (n_iters : nat) (evaluate : bool) :
  (forall k self1, exists loss self',
     train_one_batch self1 (batcher k) = Some (loss, self')) ->
  (evaluate = true ->
   forall files path, exists files',
     beam_search_decode files path = Ok files') ->
  forall fuel v, (n_iters - lv_iter v <= fuel)%nat ->
  exists v' evs,
    train_loop fuel n_iters evaluate v = Ok v' /\
    trace (lv_world v') = trace (lv_world v) ++ evs /\
    lv_iter v' = Nat.max (lv_iter v) n_iters /\
    run_facts evaluate v v' evs.
Proof.
  intros Hstep Hev. induction fuel as [|fuel IH]; intros v Hfuel.
  - exists v, []. cbn [train_loop].
    destruct (Nat.ltb_spec (lv_iter v) n_iters) as [Hlt|Hge]; [lia|].
    rewrite app_nil_r. split; [reflexivity|]. split; [reflexivity|].
    split; [lia | apply run_facts_nil].
  - rewrite train_loop_S.
    destruct (Nat.ltb_spec (lv_iter v) n_iters) as [Hlt|Hge].
    + destruct (Hstep (batches_drawn (lv_self v)) (draw_batch (lv_self v)))
        as (loss & self' & Ht).
      destruct (train_iteration_ok evaluate v loss self' Hev Ht)
        as (v1 & Hit & _ & Hiter & _ & Htr).
      rewrite Hit.
      destruct (IH v1) as (v' & evs & Hloop & Htr' & Hi & F); [lia|].
      exists v', (iteration_events evaluate v loss self' ++ evs).
      split; [exact Hloop|].
      split; [rewrite Htr', Htr, app_assoc; reflexivity|].
      split; [lia|].
      eapply run_facts_app; [|exact F].
      now apply round_run_facts.
    + exists v, []. rewrite app_nil_r.
      split; [reflexivity|]. split; [reflexivity|].
      split; [lia | apply run_facts_nil].
Qed.

(** [trainIters] when no round raises. *)
Lemma trainIters_facts (self : Train) (w : World)
    (n_iters : nat) (model_file_path : option string) (evaluate : bool)
    self0 N l0 :
  setup_train self (fs w) model_file_path = Ok (self0, N, l0) ->
  (forall k self1, exists loss self',
     train_one_batch self1 (batcher k) = Some (loss, self')) ->
  (evaluate = true ->
   forall files path, exists files',
     beam_search_decode files path = Ok files') ->
  exists v' evs,
    trainIters self w n_iters model_file_path evaluate = Ok v' /\
    trace (lv_world v') = trace w ++ LogStartingTraining N :: evs /\
    lv_iter v' = Nat.max N n_iters /\
    run_facts evaluate
      {| lv_self := self0; lv_world := emit (LogStartingTraining N) w;
         lv_iter := N; lv_running_avg_loss := l0 |} v' evs.
Proof.
  intros Hs Hstep Hev. unfold trainIters. rewrite Hs.
  match goal with
  | |- context [train_loop ?f n_iters evaluate ?v0] =>
      destruct (train_loop_facts n_iters evaluate Hstep Hev f v0)
        as (v' & evs & Hloop & Htr & Hi & F); [cbn [lv_iter]; lia|]
  end.
  exists v', evs. split; [exact Hloop|].
  split; [rewrite Htr; cbn [lv_world]; rewrite trace_emit, <- app_assoc;
          reflexivity|].
  split; [exact Hi | exact F].
Qed.

(** *** The checkpoint files of a run *)

Lemma saved_In (tr : list event) (p : string) (state : Checkpoint) :
  In (p, state) (saved tr) <-> In (TorchSave p state) tr.
Proof.
  induction tr as [|e tr IH]; cbn.
  - split; intros [].
  - destruct IH as [IH1 IH2].
    destruct e as [ | | | | | | |path st| | | ]; cbn;
      try (split; [intros H; right; apply IH1, H
                  | intros [H|H]; [discriminate H | apply IH2, H]]).
    split.
    + intros [H|H]; [left | right; apply IH1, H].
      injection H as -> ->. reflexivity.
    + intros [H|H]; [left | right; apply IH2, H].
      injection H as -> ->. reflexivity.
Qed.

(** The checkpoints of one run have pairwise different paths. *)
Lemma run_facts_paths evaluate (v v' : LoopVars) (evs : list event) :
  run_facts evaluate v v' evs -> NoDup (map fst (saved evs)).
Proof.
  intros F.
  pose proof (rf_saved_iters F) as Hit. pose proof (rf_saved_paths F) as Hp.
  assert (Hiters : NoDup (map (fun pc => ck_iter (snd pc)) (saved evs))).
  { rewrite Hit. apply multiples_NoDup. }
  clear Hit. induction (saved evs) as [|[q ck] cks IH]; cbn in *.
  - constructor.
  - inversion Hiters as [|? ? Hq Hnd']; subst.
    inversion Hp as [|? ? Hpq Hp']; subst. cbn in Hpq.
    constructor; [|now apply IH].
    intros Hin. apply Hq. apply in_map_iff in Hin.
    destruct Hin as ([q' ck'] & Heq & Hin). cbn in Heq. subst q'.
    rewrite Forall_forall in Hp'. specialize (Hp' _ Hin). cbn in Hp'.
    rewrite Hpq in Hp'.
    apply os_path_join_cancel in Hp'. unfold checkpoint_name in Hp'.
    apply checkpoint_name_inj in Hp'. destruct Hp' as [Hii _].
    apply in_map_iff. exists (q, ck'). cbn. auto.
Qed.

(** When the evaluator leaves the checkpoint files as they are, every
    checkpoint the rounds wrote is in its file when they end, and the
    other files are as they were. *)
Lemma run_facts_files evaluate (v v' : LoopVars) (evs : list event) :
  run_facts evaluate v v' evs ->
  (evaluate = true ->
   forall files path files',
     beam_search_decode files path = Ok files' ->
     forall p, torch_load files' p = torch_load files p) ->
  (forall p state, In (p, state) (saved evs) ->
     torch_load (fs (lv_world v')) p = Some state) /\
  (forall p, ~ In p (map fst (saved evs)) ->
     torch_load (fs (lv_world v')) p = torch_load (fs (lv_world v)) p).
Proof.
  intros F Hpres.
  pose proof (rf_files F Hpres) as Hfiles.
  destruct (write_all_lookup (saved evs) (fs (lv_world v))
              (run_facts_paths _ _ _ _ F)) as [H1 H2].
  split.
  - intros p state Hin. rewrite Hfiles. now apply H1.
  - intros p Hp. rewrite Hfiles. now apply H2.
Qed.

(** *** Counting iterations *)

(** C10.  [iter] is incremented before the [iter % 5000] test, so
    every checkpoint a run writes stores the number of training steps
    completed so far, counting from the [iter] the run started with;
    a run started from a checkpoint starts with the [iter] stored in
    it (a fresh run with 0), performs exactly [n_iters - iter] training
    steps, for the iterations [iter + 1, ..., n_iters] as the log
    numbers them, and none for an iteration number up to [iter].
    The stored value is read back from the files: when the evaluator
    leaves the checkpoint files as they are, every checkpoint the run
    wrote is in its file when the run ends, and for every multiple [i]
    of 5000 among [iter + 1, ..., n_iters] the file
    [<model_dir>/model_<i>_<timestamp>] holds a checkpoint whose ['iter']
    is [i].
    (Stated for runs in which no training step and no evaluation
    raises; [n_iters - iter] is 0 when [iter] exceeds [n_iters].) *)
Theorem resumed_run_counts_on (self : Train) (w : World)
    (n_iters : nat) (model_file_path : option string) (evaluate : bool)
    (m : Model) :
  Model_new (fs w) model_file_path = Ok m ->
  (forall p, model_file_path = Some p ->
             exists state, torch_load (fs w) p = Some state) ->
  (forall k self1, exists loss self',
     train_one_batch self1 (batcher k) = Some (loss, self')) ->
  (evaluate = true ->
   forall files path, exists files',
     beam_search_decode files path = Ok files') ->
  exists N v' evs,
    match model_file_path with
    | None => N = 0%nat
    | Some p => exists state,
        torch_load (fs w) p = Some state /\ N = ck_iter state
    end /\
    trainIters self w n_iters model_file_path evaluate = Ok v' /\
    trace (lv_world v') = trace w ++ LogStartingTraining N :: evs /\
    lv_iter v' = Nat.max N n_iters /\
    trained evs = (n_iters - N)%nat /\
    batches_drawn (lv_self v') = (batches_drawn self + (n_iters - N))%nat /\
    started evs = seq (N + 1) (n_iters - N) /\
    Forall (fun n => (N < n)%nat) (started evs) /\
    saves_count_done N evs /\
    ((evaluate = true ->
      forall files path files',
        beam_search_decode files path = Ok files' ->
        forall p, torch_load files' p = torch_load files p) ->
     (forall p state,
        In (TorchSave p state) evs ->
        torch_load (fs (lv_world v')) p = Some state) /\
     (forall i, (N < i <= n_iters)%nat -> (i mod 5000 = 0)%nat ->
        exists state,
          torch_load (fs (lv_world v'))
            (os_path_join (model_dir self) (checkpoint_name i))
          = Some state /\
          ck_iter state = i)).
Proof.
  intros Hm Hfile Hstep Hev.
  assert (Hsetup : exists self0 N l0,
             setup_train self (fs w) model_file_path = Ok (self0, N, l0) /\
             batches_drawn self0 = batches_drawn self /\
             model_dir self0 = model_dir self /\
             match model_file_path with
             | None => N = 0%nat
             | Some p => exists state,
                 torch_load (fs w) p = Some state /\ N = ck_iter state
             end).
  { destruct model_file_path as [p|].
    - destruct (Hfile p eq_refl) as [state Hs].
      destruct (setup_train_resume self _ _ _ _ Hm Hs)
        as (self0 & H0 & _ & Hd & Hb & _).
      exists self0, (ck_iter state), (current_loss state).
      split; [exact H0|]. split; [exact Hb|]. split; [exact Hd|].
      exists state. split; [exact Hs | reflexivity].
    - unfold setup_train. rewrite Hm.
      do 3 eexists. split; [reflexivity|]. cbn. auto. }
  destruct Hsetup as (self0 & N & l0 & Hs & Hb0 & Hd0 & HN).
  destruct (trainIters_facts self w n_iters model_file_path evaluate
              self0 N l0 Hs Hstep Hev) as (v' & evs & Hrun & Htr & Hi & F).
  pose proof Hrun as Hloop. unfold trainIters in Hloop. rewrite Hs in Hloop.
  match type of Hloop with
  | train_loop ?f n_iters evaluate ?v0 = _ =>
      destruct (train_loop_fuel n_iters evaluate Hstep Hev f v0)
        as (v1 & evs1 & Hloop1 & _ & Htr1 & Hst & Hn & Hc & Hb);
        [cbn [lv_iter]; lia|]
  end.
  rewrite Hloop1 in Hloop. injection Hloop as ->.
  cbn [lv_iter lv_world lv_self] in *.
  assert (Ee : evs1 = evs).
  { pose proof Htr as Htr2.
    rewrite Htr1, trace_emit, <- app_assoc in Htr2. cbn [app] in Htr2.
    apply app_inv_head in Htr2. injection Htr2 as Htr2. exact Htr2. }
  subst evs1.
  exists N, v', evs. split; [exact HN|]. split; [exact Hrun|].
  split; [exact Htr|]. split; [exact Hi|]. split; [exact Hn|].
  split; [rewrite Hb, Hb0; reflexivity|].
  split; [exact Hst|].
  split.
  { rewrite Hst. apply Forall_forall. intros n Hin.
    apply in_seq in Hin. lia. }
  split; [exact Hc|].
  intros Hpres.
  destruct (run_facts_files evaluate _ _ _ F Hpres) as [Hload _].
  split.
  - intros p state Hin. apply Hload. apply saved_In. exact Hin.
  - intros i Hi5 Hmod.
    pose proof (rf_saved_iters F) as Hit. cbn [lv_iter] in Hit.
    rewrite Hi, multiples_max in Hit.
    assert (Hin : In i (multiples 5000 N n_iters)).
    { unfold multiples. apply filter_In. split.
      - apply in_seq. lia.
      - apply Nat.eqb_eq. exact Hmod. }
    rewrite <- Hit in Hin. apply in_map_iff in Hin.
    destruct Hin as ([p state] & Hck & Hin). cbn [snd] in Hck.
    pose proof (rf_saved_paths F) as Hp. cbn [lv_self] in Hp.
    rewrite Forall_forall in Hp. specialize (Hp _ Hin). cbn [fst snd] in Hp.
    exists state. split; [|exact Hck].
    rewrite <- Hd0, <- Hck, <- Hp. apply Hload. exact Hin.
Qed.

(** *** What a run that does not raise has done *)




(** X14.  The checkpoints of a run do not overwrite one another: when the
    evaluator leaves the checkpoint files as they are, every checkpoint
    the run wrote can be loaded from its path when the run ends, and a
    path the run did not write to loads what it did before. *)
Theorem run_checkpoints_coexist (self : Train) (w : World)
    (n_iters : nat) (model_file_path : option string) (evaluate : bool)
    self0 N l0 :
  setup_train self (fs w) model_file_path = Ok (self0, N, l0) ->
  (forall k self1, exists loss self',
     train_one_batch self1 (batcher k) = Some (loss, self')) ->
  (evaluate = true ->
   forall files path, exists files',
     beam_search_decode files path = Ok files') ->
  (evaluate = true ->
   forall files path files',
     beam_search_decode files path = Ok files' ->
     forall p, torch_load files' p = torch_load files p) ->
  exists v' evs,
    trainIters self w n_iters model_file_path evaluate = Ok v' /\
    trace (lv_world v') = trace w ++ LogStartingTraining N :: evs /\
    NoDup (map fst (saved evs)) /\
    (forall p state, In (p, state) (saved evs) ->
       torch_load (fs (lv_world v')) p = Some state) /\
    (forall p, ~ In p (map fst (saved evs)) ->
       torch_load (fs (lv_world v')) p = torch_load (fs w) p).
Proof.
  intros Hs Hstep Hev Hpres.
  destruct (trainIters_facts self w n_iters model_file_path evaluate
              self0 N l0 Hs Hstep Hev) as (v' & evs & Hrun & Htr & Hi & F).
  exists v', evs. split; [exact Hrun|]. split; [exact Htr|].
  split; [apply (run_facts_paths _ _ _ _ F)|].
  exact (run_facts_files evaluate _ _ _ F Hpres).
Qed.

End TrainClass.

(* ================================================================= *)
(** ** A concrete run: two examples, three decode steps, two tokens *)

Module Scenario.

Definition cfg (cov : bool) : Config :=
  {| lr := 15 / 100;
     lr_coverage := 15 / 100;
     is_coverage := cov;
     adagrad_init_acc := 1 / 10;
     eps := / 1000000000000;
     cov_loss_wt := 1;
     max_dec_steps := 3;
     max_grad_norm := 2;
     use_gpu := false |}.

Definition enc_input : EncoderInput :=
  {| enc_batch := [[0; 1]; [1; 1]]%nat;
     enc_padding_mask := [[1; 1]; [1; 1]];
     enc_lens := [2; 2]%nat;
     enc_batch_extend_vocab := None;
     extra_zeros := None;
     in_c_t_1 := [[0]; [0]];
     in_coverage := Some [[0; 0]; [0; 0]] |}.

(** The second example has two target tokens: its last position is
    padding. *)
Definition dec_target : DecoderTarget :=
  {| dec_batch := [[0; 1; 1]; [1; 0; 0]]%nat;
     dec_padding_mask := [[1; 1; 1]; [1; 1; 0]];
     max_dec_len := 3;
     dec_lens_var := [3; 2];
     target_batch := [[1; 1; 0]; [0; 0; 0]]%nat |}.

Definition dec_out : DecoderOut unit :=
  {| final_dist := [[1 / 4; 3 / 4]; [1 / 2; 1 / 2]];
     s_t := tt;
     c_t := [[0]; [0]];
     attn_dist := [[1 / 2; 1 / 2]; [1 / 4; 3 / 4]];
     p_gen := [[1]; [1]];
     next_coverage := Some [[1 / 2; 1 / 2]; [1 / 4; 3 / 4]] |}.

Definition encoder_fw (w : vec) (b : list (list nat)) (l : list nat)
  : unit * unit * unit := (tt, tt, tt).

Definition reduce_fw (w : vec) (h : unit) : unit := tt.

Definition decoder_fw (w : vec) (y : list nat) (s e f : unit) (pm c : mat)
    (ez : option mat) (ev : option (list (list nat))) (cov : option mat)
    (di : nat) : DecoderOut unit := dec_out.

Definition get_input (b : unit) (use_cuda : bool) : EncoderInput := enc_input.
Definition get_output (b : unit) (use_cuda : bool) : DecoderTarget :=
  dec_target.

Definition with_grad (n : NNModule) (g : vec) : NNModule :=
  {| state_dict := state_dict n; grad := g |}.

(** Gradients of norm 5, 2 and 0. *)
Definition backward (m : Model) (b : unit) : Model :=
  {| encoder := with_grad (encoder m) [3; 4];
     decoder := with_grad (decoder m) [2];
     reduce_state := with_grad (reduce_state m) [] |}.

Definition opt_step (o : Optimizer) (m : Model) : Optimizer * Model := (o, m).

Definition model0 : Model :=
  {| encoder := {| state_dict := [1; 2]; grad := [0; 0] |};
     decoder := {| state_dict := [3]; grad := [0] |};
     reduce_state := {| state_dict := []; grad := [] |} |}.

Definition model_of (state : Checkpoint) : Model :=
  {| encoder := {| state_dict := encoder_state_dict state; grad := [] |};
     decoder := {| state_dict := decoder_state_dict state; grad := [] |};
     reduce_state :=
       {| state_dict := reduce_state_dict state; grad := [] |} |}.

Definition new_model (files : FS) (path : option string) : result Model :=
  match path with
  | None => Ok model0
  | Some p =>
      match torch_load files p with
      | Some state => Ok (model_of state)
      | None => Raise ModelError
      end
  end.

Definition batches (k : nat) : unit := tt.

Definition running_avg (loss running : R) (step : nat) : R := loss.

Definition eval_ok (files : FS) (path : string) : result FS := Ok files.
Definition eval_fails (files : FS) (path : string) : result FS :=
  Raise EvaluationError.

Definition clock (iter : nat) : nat := 0%nat.

Definition self0 : Train :=
  {| model_dir := "log/train_0/model";
     model := model0;
     optimizer := {| opt_lr := 15 / 100; accumulator := [7; 7; 7] |};
     norm := 0;
     batches_drawn := 0 |}.

(** A checkpoint written at iteration 5000 by an earlier run. *)
Definition ck5000 : Checkpoint :=
  {| ck_iter := 5000;
     encoder_state_dict := [1; 2];
     decoder_state_dict := [3];
     reduce_state_dict := [];
     ck_optimizer := {| opt_lr := 15 / 100; accumulator := [5; 5; 5] |};
     current_loss := 1 |}.

Definition files0 : FS := [("log/train_0/model/model_5000_0"%string, ck5000)].

Definition world0 : World := {| fs := files0; trace := [] |}.

Lemma batch_well_shaped (cov : bool) :
  well_shaped (cfg cov) false decoder_fw get_input get_output 2 2 2 tt.
Proof.
  constructor; cbn; intros;
    try (split; [reflexivity | repeat constructor]);
    try (repeat constructor; fail).
  - eexists. split; [reflexivity|]. split; [reflexivity | repeat constructor].
  - eexists. split; [reflexivity|]. split; [reflexivity | repeat constructor].
Qed.

Lemma batch_steps (cov : bool) :
  decode_steps (cfg cov) false get_output tt = 3%nat.
Proof. reflexivity. Qed.

End Scenario.

(* ================================================================= *)
(** ** The statements on the concrete run *)

Import Scenario.

(** C1 on the two-example batch: [train_one_batch] returns, and the first
    example, whose three targets are all real, is averaged over the three
    steps. *)
Lemma train_one_batch_loss_witness :
  exists (st : DecodeState unit) loss self',
    train_one_batch (cfg false) false encoder_fw reduce_fw decoder_fw
      get_input get_output backward opt_step self0 tt = Some (loss, self') /\
    example_total (step_losses st) 0 / 3 =
    mean (map (fun l => nth 0 l 0) (step_losses st)).
Proof.
  destruct (train_one_batch_loss unit unit unit unit unit (cfg false) false
              encoder_fw reduce_fw decoder_fw get_input get_output backward
              opt_step 2 2 2 self0 tt (batch_well_shaped false))
    as (st & loss & self' & _ & Ht & _ & Havg).
  - rewrite batch_steps. lia.
  - exists st, loss, self'. split; [exact Ht|].
    specialize (Havg 0%nat). rewrite batch_steps in Havg. cbn in Havg.
    apply Havg. lra.
Defined.

(** C2 on the two-example batch: at the last step the second example is
    padding, and its step loss is zero. *)
Lemma step_loss_is_masked_nll_witness :
  exists (stT : DecodeState unit) loss,
    decode_loop (cfg false) false encoder_fw reduce_fw decoder_fw
      get_input get_output model0 tt 3 = Some stT /\
    nth_error (step_losses stT) 2 = Some loss /\
    nth_error loss 0 = Some (1 * (- ln (1 / 4 + / 1000000000000))) /\
    nth_error loss 1 = Some 0.
Proof.
  destruct (step_loss_is_masked_nll unit unit unit unit unit (cfg false) false
              encoder_fw reduce_fw decoder_fw get_input get_output
              2 2 2 model0 tt 2 (batch_well_shaped false) eq_refl)
    as (st & d & loss & st' & stT & _ & Hd & _ & _ & HT & Hn & _ & Hb).
  - rewrite batch_steps. lia.
  - exists stT, loss. rewrite batch_steps in HT.
    split; [exact HT|]. split; [exact Hn|].
    cbn in Hd. injection Hd as <-. split.
    + destruct (Hb 0%nat) as (mask & gold & p & Em & Eg & Ep & Hl & _); [lia|].
      cbn in Em, Eg. injection Em as <-. injection Eg as <-.
      cbn in Ep. injection Ep as <-. exact Hl.
    + destruct (Hb 1%nat) as (mask & gold & p & Em & Eg & Ep & _ & H0); [lia|].
      cbn in Em, Eg. injection Em as <-. injection Eg as <-.
      cbn in Ep. injection Ep as <-.
      apply H0; [reflexivity | cbn; lra].
Defined.

(** C3 on the two-example batch with coverage on: at the first step the
    coverage is the zero tensor of the input, so the coverage term of the
    first example is [1 * (min(1/2, 0) + min(1/2, 0))]; the accumulator
    the step leaves is the one the decoder returned. *)
Lemma coverage_term_uses_coverage_so_far_witness :
  exists (st st' : DecodeState unit) loss,
    decode_loop (cfg true) false encoder_fw reduce_fw decoder_fw
      get_input get_output model0 tt 0 = Some st /\
    coverage st = Some [[0; 0]; [0; 0]] /\
    decode_loop (cfg true) false encoder_fw reduce_fw decoder_fw
      get_input get_output model0 tt 1 = Some st' /\
    coverage st' = Some [[1 / 2; 1 / 2]; [1 / 4; 3 / 4]] /\
    step_losses st' = step_losses st ++ [loss] /\
    nth_error loss 0 =
      Some ((- ln (3 / 4 + / 1000000000000)
             + 1 * row_min_sum [1 / 2; 1 / 2] [0; 0]) * 1).
Proof.
  destruct (coverage_term_uses_coverage_so_far unit unit unit unit unit
              (cfg true) false encoder_fw reduce_fw decoder_fw get_input
              get_output 2 2 2 model0 tt 0 (batch_well_shaped true) eq_refl)
    as (st & d & cov & scl & loss & st' & Hst & Hcov & Hd & _ & HS & Hc' & Hl
        & Hb).
  - rewrite batch_steps. lia.
  - exists st, st', loss.
    cbn in Hd. injection Hd as <-.
    assert (Hcov0 : cov = [[0; 0]; [0; 0]]).
    { cbn in Hst. injection Hst as <-. cbn in Hcov. now injection Hcov as <-. }
    subst cov.
    split; [exact Hst|]. split; [exact Hcov|]. split; [exact HS|].
    split; [exact Hc'|]. split; [exact Hl|].
    destruct (Hb 0%nat)
      as (mask & gold & p & ra & rc & Em & Eg & Ep & Ea & Ec & _ & Hloss);
      [lia|].
    cbn in Em, Eg, Ea, Ec. injection Em as <-. injection Eg as <-.
    injection Ea as <-. injection Ec as <-.
    cbn in Ep. injection Ep as <-. exact Hloss.
Defined.

(** C5 on the two-example batch: three rounds; the decoder call of the
    second round gets the second column of [dec_batch], and the state
    the round leaves is the one that call returns. *)
Lemma decoding_is_teacher_forced_witness :
  exists (st st1 st2 : DecodeState unit),
    decode_loop (cfg false) false encoder_fw reduce_fw decoder_fw
      get_input get_output model0 tt 3 = Some st /\
    length (step_losses st) = 3%nat /\
    decode_loop (cfg false) false encoder_fw reduce_fw decoder_fw
      get_input get_output model0 tt 1 = Some st1 /\
    decode_loop (cfg false) false encoder_fw reduce_fw decoder_fw
      get_input get_output model0 tt 2 = Some st2 /\
    s_t_1 st2 =
      s_t (decoder_fw [3] [1; 0]%nat (s_t_1 st1) tt tt [[1; 1]; [1; 1]]
             (c_t_1 st1) None None (coverage st1) 1).
Proof.
  destruct (decoding_is_teacher_forced unit unit unit unit unit (cfg false)
              false encoder_fw reduce_fw decoder_fw get_input get_output
              2 2 2 model0 tt (batch_well_shaped false))
    as (st & Hst & _ & _ & Hlen & Hcalls).
  destruct (Hcalls 1%nat) as (y & st1 & st2 & _ & Hy & _ & _ & H1 & H2 & Hs & _).
  { cbn. lia. }
  cbn in Hy. injection Hy as <-.
  exists st, st1, st2. split; [exact Hst|]. split; [exact Hlen|].
  split; [exact H1|]. split; [exact H2|]. exact Hs.
Defined.

(** C9 on the attention and the coverage of the concrete run. *)
Lemma coverage_loss_nonneg_witness :
  exists scl,
    step_coverage_loss [[1 / 2; 1 / 2]; [1 / 4; 3 / 4]]
                       (Some [[1 / 2; 0]; [1; 1 / 8]]) = Some scl /\
    Forall (fun x => 0 <= x) scl.
Proof.
  destruct (coverage_loss_nonneg [[1 / 2; 1 / 2]; [1 / 4; 3 / 4]]
              [[1 / 2; 0]; [1; 1 / 8]] 2 2)
    as (scl & Hs & _ & Hn).
  - split; [reflexivity | repeat constructor].
  - split; [reflexivity | repeat constructor].
  - repeat constructor; lra.
  - repeat constructor; lra.
  - exists scl. split; assumption.
Defined.

(** *** Gradient clipping on the concrete gradients *)





(** *** setup_train on the concrete checkpoint *)

(** C4, the second half of the statement fails: a run resumed from the
    checkpoint with coverage on does not load the saved accumulators
    (all 5); its accumulators hold the initial constant 1/10. *)
Lemma resumed_coverage_run_resets_accumulator :
  exists self',
    setup_train (cfg true) false new_model self0 files0
      (Some "log/train_0/model/model_5000_0"%string)
      = Ok (self', 5000%nat, 1) /\
    accumulator (ck_optimizer ck5000) = [5; 5; 5] /\
    accumulator (optimizer self') = [1 / 10; 1 / 10; 1 / 10] /\
    accumulator (optimizer self') <> accumulator (ck_optimizer ck5000).
Proof.
  eexists. split; [reflexivity|]. cbn.
  split; [reflexivity|]. split; [reflexivity|].
  intros H. injection H as H _ _. lra.
Qed.

(** C4 as amended, on the concrete checkpoint with coverage off: the
    saved accumulators are loaded. *)
Lemma setup_train_optimizer_witness :
  exists self' start_iter start_loss,
    setup_train (cfg false) false new_model self0 files0
      (Some "log/train_0/model/model_5000_0"%string)
      = Ok (self', start_iter, start_loss) /\
    optimizer self' = ck_optimizer ck5000.
Proof.
  destruct (setup_train_optimizer (cfg false) false new_model self0 files0
              (Some "log/train_0/model/model_5000_0"%string)
              (model_of ck5000) eq_refl)
    as (self' & it & l & Hs & _ & Hload & _).
  - intros p Hp. injection Hp as <-. exists ck5000. reflexivity.
  - exists self', it, l. split; [exact Hs|].
    destruct (Hload _ eq_refl eq_refl) as (state & Hl & Ho).
    cbn in Hl. injection Hl as <-. exact Ho.
Defined.

(** C6 on the concrete run: the checkpoint written at iteration 5000 is
    read back by [setup_train], which resumes at 5000 with the saved
    running loss and, coverage being off, the saved optimizer state. *)
Lemma checkpoint_round_trip_witness :
  let saved := save_model clock self0 [] (1 / 2) 5000 in
  fst saved = "log/train_0/model/model_5000_0"%string /\
  option_map ck_iter (torch_load (snd saved) (fst saved)) = Some 5000%nat /\
  exists self',
    setup_train (cfg false) false new_model self0 (snd saved)
      (Some (fst saved)) = Ok (self', 5000%nat, 1 / 2) /\
    optimizer self' = optimizer self0.
Proof.
  intros saved.
  destruct (checkpoint_round_trip (cfg false) false new_model clock self0 []
              (1 / 2) 5000) as [Hload Hsetup].
  fold saved in Hload, Hsetup.
  split; [reflexivity|]. split; [rewrite Hload; reflexivity|].
  destruct (Hsetup self0 (model_of (checkpoint_of self0 (1 / 2) 5000)))
    as (self' & Hs & _ & Ho).
  - reflexivity.
  - exists self'. split; [exact Hs | apply Ho; reflexivity].
Defined.

(** *** The training loop on the concrete run *)

Lemma batches_total (cov : bool) :
  (forall k : nat,
     well_shaped (cfg cov) false decoder_fw get_input get_output 2 2 2
                 (batches k)) /\
  (forall k : nat,
     (0 < decode_steps (cfg cov) false get_output (batches k))%nat).
Proof.
  split; intros k.
  - apply batch_well_shaped.
  - unfold batches. rewrite batch_steps. lia.
Qed.

(** Every training step of the concrete run returns. *)
Lemma steps_total (cov : bool) (k : nat) (self1 : Train) :
  exists loss self',
    train_one_batch (cfg cov) false encoder_fw reduce_fw decoder_fw get_input
      get_output backward opt_step self1 (batches k) = Some (loss, self').
Proof.
  destruct (batches_total cov) as [HW Hpos].
  destruct (train_one_batch_total unit unit unit unit unit (cfg cov) false
              encoder_fw reduce_fw decoder_fw get_input get_output backward
              opt_step 2 2 2 self1 (batches k) (HW k) (Hpos k))
    as (loss & self' & Ht & _).
  exists loss, self'. exact Ht.
Qed.

(** The evaluator [eval_ok] returns, and leaves the files as they are. *)
Lemma eval_ok_total (evaluate : bool) :
  evaluate = true ->
  forall (files : FS) (path : string),
  exists files', eval_ok files path = Ok files'.
Proof. intros _ files path. exists files. reflexivity. Qed.

Lemma eval_ok_keeps_files (files : FS) (path : string) (files' : FS) :
  eval_ok files path = Ok files' ->
  forall p, torch_load files' p = torch_load files p.
Proof. intros H p. injection H as <-. reflexivity. Qed.

(** C7, the statement of the spec fails: with an evaluator that raises,
    a fresh run asked for 5001 iterations with evaluation enabled ends
    with the evaluator's exception at iteration 5000; iteration 5001 is
    never run. *)
Lemma evaluation_failure_stops_training :
  trainIters (cfg false) false encoder_fw reduce_fw decoder_fw get_input
    get_output backward opt_step new_model batches running_avg eval_fails
    clock self0 world0 (5000 + 1) None true
  = Raise EvaluationError.
Proof.
  destruct (batches_total false) as [HW Hpos].
  unfold trainIters, setup_train, new_model. cbv beta iota.
  apply (train_loop_eval_abort unit unit unit unit unit (cfg false) false
           encoder_fw reduce_fw decoder_fw get_input get_output backward
           opt_step batches running_avg eval_fails clock 2 2 2 (5000 + 1)
           EvaluationError 1 HW Hpos (fun _ _ => eq_refl)) with (d := 4999%nat).
  - lia.
  - reflexivity.
  - cbn [lv_iter]. lia.
Qed.

(** C7 as amended, on the concrete run: the round that brings [iter] to
    5000 raises the exception of the evaluator, and so does the loop. *)
Lemma evaluation_failure_propagates_witness :
  let v := {| lv_self := self0; lv_world := world0; lv_iter := 4999;
              lv_running_avg_loss := 1 |} in
  train_iteration (cfg false) false encoder_fw reduce_fw decoder_fw get_input
    get_output backward opt_step batches running_avg eval_fails clock true v
  = Raise EvaluationError /\
  train_loop (cfg false) false encoder_fw reduce_fw decoder_fw get_input
    get_output backward opt_step batches running_avg eval_fails clock
    1 (5000 + 1) true v
  = Raise EvaluationError.
Proof.
  intros v. destruct (batches_total false) as [HW Hpos].
  destruct (train_one_batch_total unit unit unit unit unit (cfg false) false
              encoder_fw reduce_fw decoder_fw get_input get_output backward
              opt_step 2 2 2 (draw_batch self0) tt (HW 0%nat) (Hpos 0%nat))
    as (loss & self' & Ht & _).
  assert (Hlt : (lv_iter v < 5000 + 1)%nat) by (cbn [lv_iter v]; lia).
  assert (Hmod : (S (lv_iter v) mod 5000 = 0)%nat) by reflexivity.
  exact (evaluation_failure_propagates unit unit unit unit unit (cfg false)
           false encoder_fw reduce_fw decoder_fw get_input get_output backward
           opt_step batches running_avg eval_fails clock v (5000 + 1) 0
           loss self' Hlt Hmod Ht).
Defined.

(** C10 on the concrete run: resumed from the checkpoint of iteration
    5000 and asked for 10000 iterations, the run performs 5000 training
    steps, logged as iterations 5001 to 10000, and the checkpoint file
    it writes in its last round stores 10000. *)
Lemma resumed_run_counts_on_witness :
  exists v' evs state,
    trainIters (cfg false) false encoder_fw reduce_fw decoder_fw get_input
      get_output backward opt_step new_model batches running_avg eval_ok
      clock self0 world0 (5000 + 5000)
      (Some "log/train_0/model/model_5000_0"%string) true = Ok v' /\
    trace (lv_world v') = LogStartingTraining 5000 :: evs /\
    lv_iter v' = (5000 + 5000)%nat /\
    trained evs = 5000%nat /\
    batches_drawn (lv_self v') = 5000%nat /\
    started evs = seq (5000 + 1) 5000 /\
    saves_count_done 5000 evs /\
    torch_load (fs (lv_world v')) "log/train_0/model/model_10000_0"
      = Some state /\
    ck_iter state = (5000 + 5000)%nat.
Proof.
  destruct (resumed_run_counts_on unit unit unit unit unit (cfg false) false
              encoder_fw reduce_fw decoder_fw get_input get_output backward
              opt_step new_model batches running_avg eval_ok clock
              self0 world0 (5000 + 5000)
              (Some "log/train_0/model/model_5000_0"%string) true
              (model_of ck5000) eq_refl)
    as (N & v' & evs & HN & Hrun & Htr & Hi & Hn & Hb & Hs & _ & Hc & Hfiles).
  - intros p Hp. injection Hp as <-. exists ck5000. reflexivity.
  - apply steps_total.
  - apply eval_ok_total.
  - destruct HN as (state0 & Hl & ->). cbn in Hl. injection Hl as <-.
    change (ck_iter ck5000) with 5000%nat in *.
    replace (5000 + 5000 - 5000)%nat with 5000%nat in * by lia.
    destruct (Hfiles (fun _ => eval_ok_keeps_files)) as [_ Hfile].
    destruct (Hfile (5000 + 5000)%nat) as (state & Hload & Hck);
      [lia | reflexivity |].
    exists v', evs, state. split; [exact Hrun|]. split; [exact Htr|].
    split; [rewrite Hi; lia|]. split; [exact Hn|]. split; [exact Hb|].
    split; [exact Hs|]. split; [exact Hc|]. split; [|exact Hck].
    rewrite <- Hload. reflexivity.
Defined.

(* ================================================================= *)
(** ** Runs without evaluation *)

(** X15.  With [evaluate] false (the default, and what the command line entry
    point passes) [trainIters] does not depend on the evaluator: the
    result is the same whatever [BeamSearch] would do. *)
Theorem trainIters_without_evaluation
    (EncOutputs EncFeature EncHidden DecState Batch : Type)
    (config : Config) (cuda_is_available : bool)
    (encoder_forward :
       vec -> list (list nat) -> list nat -> EncOutputs * EncFeature * EncHidden)
    (reduce_state_forward : vec -> EncHidden -> DecState)
    (decoder_forward :
       vec -> list nat -> DecState -> EncOutputs -> EncFeature -> mat -> mat ->
       option mat -> option (list (list nat)) -> option mat -> nat ->
       DecoderOut DecState)
    (get_input_from_batch : Batch -> bool -> EncoderInput)
    (get_output_from_batch : Batch -> bool -> DecoderTarget)
    (loss_backward : Model -> Batch -> Model)
    (optimizer_step : Optimizer -> Model -> Optimizer * Model)
    (Model_new : FS -> option string -> result Model)
    (batcher : nat -> Batch)
    (calc_running_avg_loss : R -> R -> nat -> R)
    (evaluator1 evaluator2 : FS -> string -> result FS)
    (time_at : nat -> nat)
    (self : Train) (w : World) (n_iters : nat)
    (model_file_path : option string) :
  trainIters config cuda_is_available encoder_forward reduce_state_forward
    decoder_forward get_input_from_batch get_output_from_batch loss_backward
    optimizer_step Model_new batcher calc_running_avg_loss evaluator1 time_at
    self w n_iters model_file_path false
  = trainIters config cuda_is_available encoder_forward reduce_state_forward
      decoder_forward get_input_from_batch get_output_from_batch loss_backward
      optimizer_step Model_new batcher calc_running_avg_loss evaluator2 time_at
      self w n_iters model_file_path false.
Proof.
  unfold trainIters.
  destruct (setup_train _ _ _ _ _ _) as [[[self0 N] l0]|e]; [|reflexivity].
  generalize (n_iters - N)%nat as fuel.
  generalize {| lv_self := self0; lv_world := emit (LogStartingTraining N) w;
                lv_iter := N; lv_running_avg_loss := l0 |} as v.
  intros v fuel. revert v. induction fuel as [|fuel IH]; intros v.
  - reflexivity.
  - cbn [train_loop].
    destruct (lv_iter v <? n_iters)%nat; [|reflexivity].
    change (train_iteration config cuda_is_available encoder_forward
              reduce_state_forward decoder_forward get_input_from_batch
              get_output_from_batch loss_backward optimizer_step batcher
              calc_running_avg_loss evaluator2 time_at false v)
      with (train_iteration config cuda_is_available encoder_forward
              reduce_state_forward decoder_forward get_input_from_batch
              get_output_from_batch loss_backward optimizer_step batcher
              calc_running_avg_loss evaluator1 time_at false v).
    destruct (train_iteration _ _ _ _ _ _ _ _ _ _ _ _ _ _ _) as [v1|e];
      [apply IH | reflexivity].
Qed.

(* ================================================================= *)
(** ** Further statements on the concrete run *)

Lemma fresh_setup (cov : bool) :
  exists s,
    setup_train (cfg cov) false new_model self0 (fs world0) None
      = Ok (s, 0%nat, 0) /\
    model_dir s = model_dir self0 /\ batches_drawn s = 0%nat.
Proof. eexists. split; [reflexivity|]. split; reflexivity. Qed.

Lemma resumed_setup :
  exists s,
    setup_train (cfg false) false new_model self0 (fs world0)
      (Some "log/train_0/model/model_5000_0"%string)
      = Ok (s, 5000%nat, 1).
Proof. eexists. reflexivity. Qed.

(** The concrete batch meets the conditions under which no step loss is
    negative, with coverage on or off. *)
Lemma batch_loss_conditions (cov : bool) :
  loss_conditions (cfg cov) false decoder_fw get_input get_output tt.
Proof.
  constructor; cbn; intros;
    try match goal with
      | H : Some _ = Some _ |- _ => injection H as <-
      end;
    repeat (apply Forall_cons || apply Forall_nil); lra.
Qed.

(** X1 on the concrete run: the checkpoints of iterations 5000 and 10000
    have different paths. *)
Lemma save_model_path_inj_witness :
  fst (save_model clock self0 [] 1 5000)
  <> fst (save_model clock self0 files0 2 (5000 + 5000)).
Proof.
  apply (save_model_path_inj clock self0 self0 [] files0 1 2 5000
           (5000 + 5000) eq_refl).
  lia.
Defined.

(** X2 on the concrete run: the checkpoint of iteration 5000 of a run
    started at time 0 under [log]. *)
Lemma save_model_path_layout_witness :
  fst (save_model clock self0 [] 1 5000)
  = "log/train_0/model/model_5000_0"%string.
Proof.
  rewrite (save_model_path_layout clock self0 [] 1 5000 "log" 0 eq_refl).
  reflexivity.
Defined.

(** X3 on the concrete run: resuming from a path without a checkpoint. *)
Lemma trainIters_missing_checkpoint_witness :
  exists e,
    trainIters (cfg false) false encoder_fw reduce_fw decoder_fw get_input
      get_output backward opt_step new_model batches running_avg eval_ok
      clock self0 world0 5000 (Some "log/train_0/model/model_1_0"%string)
      false = Raise e.
Proof.
  destruct (trainIters_missing_checkpoint unit unit unit unit unit (cfg false)
              false encoder_fw reduce_fw decoder_fw get_input get_output
              backward opt_step new_model batches running_avg eval_ok clock
              self0 world0 5000 "log/train_0/model/model_1_0"%string false
              eq_refl) as (e & He & _).
  exists e. exact He.
Defined.

(** X4 on a checkpoint saved with learning rate 1/100 and resumed with
    [config.lr = 15/100] and coverage off: the optimizer keeps 1/100. *)
Lemma setup_train_learning_rate_witness :
  let state :=
    {| ck_iter := 5000; encoder_state_dict := [1; 2];
       decoder_state_dict := [3]; reduce_state_dict := [];
       ck_optimizer := {| opt_lr := 1 / 100; accumulator := [5; 5; 5] |};
       current_loss := 1 |} in
  exists self',
    setup_train (cfg false) false new_model self0 [("ck"%string, state)]
      (Some "ck"%string) = Ok (self', 5000%nat, 1) /\
    opt_lr (optimizer self') = 1 / 100.
Proof.
  intros state.
  assert (Hs : exists self',
             setup_train (cfg false) false new_model self0
               [("ck"%string, state)] (Some "ck"%string)
             = Ok (self', 5000%nat, 1)) by (eexists; reflexivity).
  destruct Hs as [self' Hs]. exists self'. split; [exact Hs|].
  rewrite (setup_train_learning_rate (cfg false) false new_model self0
             [("ck"%string, state)] (Some "ck"%string) self' 5000 1 Hs).
  reflexivity.
Defined.

(** X5 with [config.max_dec_steps = 0]: the training step raises. *)
Lemma train_one_batch_no_steps_witness :
  let cfg0 :=
    {| lr := 15 / 100; lr_coverage := 15 / 100; is_coverage := false;
       adagrad_init_acc := 1 / 10; eps := / 1000000000000; cov_loss_wt := 1;
       max_dec_steps := 0; max_grad_norm := 2; use_gpu := false |} in
  train_one_batch cfg0 false encoder_fw reduce_fw decoder_fw get_input
    get_output backward opt_step self0 tt = None.
Proof.
  intros cfg0.
  apply (train_one_batch_no_steps unit unit unit unit unit cfg0 false
           encoder_fw reduce_fw decoder_fw get_input get_output backward
           opt_step self0 tt).
  reflexivity.
Defined.

(** X6 with a target id 2 against an output distribution over two
    tokens. *)
Lemma train_one_batch_gold_out_of_range_witness :
  let get_output' (b : unit) (use_cuda : bool) :=
    {| dec_batch := [[0; 1; 1]; [1; 0; 0]]%nat;
       dec_padding_mask := [[1; 1; 1]; [1; 1; 0]];
       max_dec_len := 3;
       dec_lens_var := [3; 2];
       target_batch := [[1; 1; 2]; [0; 0; 0]]%nat |} in
  train_one_batch (cfg false) false encoder_fw reduce_fw decoder_fw get_input
    get_output' backward opt_step self0 tt = None.
Proof.
  intros get_output'.
  apply (train_one_batch_gold_out_of_range unit unit unit unit unit
           (cfg false) false encoder_fw reduce_fw decoder_fw get_input
           get_output' backward opt_step 2 self0 tt 0 2 2).
  - intros. cbn. repeat constructor.
  - cbn. lia.
  - reflexivity.
  - lia.
Defined.


(** X8 on the two-example batch with coverage on. *)
Lemma train_one_batch_loss_nonneg_witness :
  exists loss self',
    train_one_batch (cfg true) false encoder_fw reduce_fw decoder_fw
      get_input get_output backward opt_step self0 tt = Some (loss, self') /\
    0 <= loss.
Proof.
  destruct (steps_total true 0%nat self0) as (loss & self' & Ht).
  exists loss, self'. split; [exact Ht|].
  exact (train_one_batch_loss_nonneg unit unit unit unit unit (cfg true)
           false encoder_fw reduce_fw decoder_fw get_input get_output
           backward opt_step self0 tt loss self' (batch_loss_conditions true)
           Ht).
Defined.

(** X9 on the concrete run: resumed from the checkpoint of iteration
    5000 and asked for 5000 iterations, the run only writes its first log
    line. *)
Lemma trainIters_nothing_to_do_witness :
  exists v,
    trainIters (cfg false) false encoder_fw reduce_fw decoder_fw get_input
      get_output backward opt_step new_model batches running_avg eval_ok
      clock self0 world0 5000
      (Some "log/train_0/model/model_5000_0"%string) true = Ok v /\
    lv_iter v = 5000%nat /\
    trace (lv_world v) = [LogStartingTraining 5000].
Proof.
  destruct resumed_setup as [s Hs].
  eexists. split.
  - apply (trainIters_nothing_to_do unit unit unit unit unit (cfg false)
             false encoder_fw reduce_fw decoder_fw get_input get_output
             backward opt_step new_model batches running_avg eval_ok clock
             self0 world0 5000
             (Some "log/train_0/model/model_5000_0"%string) true s 5000 1 Hs).
    lia.
  - split; reflexivity.
Defined.

(** X10 with [config.max_dec_steps = 0]: the first training step raises,
    and so does the run. *)
Lemma trainIters_training_error_witness :
  let cfg0 :=
    {| lr := 15 / 100; lr_coverage := 15 / 100; is_coverage := false;
       adagrad_init_acc := 1 / 10; eps := / 1000000000000; cov_loss_wt := 1;
       max_dec_steps := 0; max_grad_norm := 2; use_gpu := false |} in
  trainIters cfg0 false encoder_fw reduce_fw decoder_fw get_input
    get_output backward opt_step new_model batches running_avg eval_ok
    clock self0 world0 3 None false = Raise TensorError.
Proof.
  intros cfg0.
  assert (Hs : exists s, setup_train cfg0 false new_model self0 (fs world0)
                           None = Ok (s, 0%nat, 0))
    by (eexists; reflexivity).
  destruct Hs as [s Hs].
  apply (trainIters_training_error unit unit unit unit unit cfg0 false
           encoder_fw reduce_fw decoder_fw get_input get_output backward
           opt_step new_model batches running_avg eval_ok clock self0 world0
           3 None false s 0 0 Hs).
  - lia.
  - reflexivity.
Defined.




(** X14 on a fresh run of 5000 iterations: every checkpoint written can
    be loaded when the run ends, and the checkpoint of the earlier run is
    still there. *)
Lemma run_checkpoints_coexist_witness :
  exists v' evs,
    trainIters (cfg false) false encoder_fw reduce_fw decoder_fw get_input
      get_output backward opt_step new_model batches running_avg eval_ok
      clock self0 world0 5000 None true = Ok v' /\
    trace (lv_world v') = LogStartingTraining 0 :: evs /\
    NoDup (map fst (saved evs)) /\
    (forall p state,
       In (p, state) (saved evs) ->
       torch_load (fs (lv_world v')) p = Some state) /\
    (forall p,
       ~ In p (map fst (saved evs)) ->
       torch_load (fs (lv_world v')) p = torch_load files0 p).
Proof.
  destruct (fresh_setup false) as (s & Hs & _).
  exact (run_checkpoints_coexist unit unit unit unit unit (cfg false)
           false encoder_fw reduce_fw decoder_fw get_input get_output backward
           opt_step new_model batches running_avg eval_ok clock
           self0 world0 5000 None true s 0 0 Hs (steps_total false)
           (eval_ok_total true) (fun _ => eval_ok_keeps_files)).
Defined.
